(** * useQuickAuth: the sign-in / sign-out orchestrator of src/roy/hooks/useQuickAuth.ts

    The hook is glue code around four collaborators (the embedded host SDK,
    the wallet connector, the message signer and the backend verification
    endpoint).  The embedding below keeps the control flow of [signIn] and
    [signOut] as written and turns every collaborator into a field of an
    environment record [Env]; every side effect the code performs is
    appended to a chronological [trace], and the React state is threaded
    explicitly through a small state-and-exception monad [M]. *)

From stdpp Require Import gmap strings list fin_maps pretty.

#[local] Set Warnings "-register-all".
#[local] Open Scope string_scope.

(** ** JavaScript values

    [response.json()] is typed [any], so whatever JSON the backend sends
    flows into the state.  Numbers are kept as integers: the hook never
    computes with them, it only tests them for truthiness and stores them. *)

Inductive value : Type :=
  | VUndefined
  | VNull
  | VBool (b : bool)
  | VNum (n : Z)
  | VStr (s : string)
  | VArr (l : list value)
  | VObj (m : gmap string value).

(** What the code throws and what its collaborators reject with. *)
Inductive exn : Type :=
  | Error (msg : string)
  | TypeError (prop : string).

(** JavaScript truthiness, the test behind [!x], [x || y] and [!!x]. *)
Definition truthy (v : value) : bool :=
  match v with
  | VUndefined | VNull => false
  | VBool b => b
  | VNum n => negb (n =? 0)%Z
  | VStr s => negb (String.eqb s "")
  | VArr _ | VObj _ => true
  end.

(** [string | null] and [string | undefined] variables: [None] is the
    absent value.  [!x] is true for [None] and for the empty string. *)
Definition truthy_str (o : option string) : bool :=
  match o with
  | Some s => negb (String.eqb s "")
  | None => false
  end.

(** The value stored when such a variable is written into an object:
    [null] for an absent [walletAddress] (declared [string | null]).
    [currentAddress] is written only after line 145 has made sure that
    it is a string. *)
Definition of_nullable (o : option string) : value :=
  match o with
  | Some s => VStr s
  | None => VNull
  end.

(** [v.k] for the three keys the hook reads ([fid], [address], [token]):
    a property read on [null] or [undefined] throws a TypeError, an
    object answers from its own properties, and no primitive or array has
    any of these keys. *)
Definition get (v : value) (k : string) : exn + value :=
  match v with
  | VUndefined | VNull => inl (TypeError k)
  | VObj m => inr (default VUndefined (m !! k))
  | VBool _ | VNum _ | VStr _ | VArr _ => inr VUndefined
  end.

(** The own enumerable properties copied by a spread [...v] inside an
    object literal: those of an object, the indices of an array or of a
    string, nothing for the other values ([null] and [undefined]
    included: spreading them is not an error). *)
Definition own_props (v : value) : gmap string value :=
  match v with
  | VObj m => m
  | VArr l => list_to_map (imap (fun i x => (pretty i, x)) l)
  | VStr s =>
      list_to_map
        (imap (fun i c => (pretty i, VStr (String c EmptyString)))
              (String.list_ascii_of_string s))
  | VUndefined | VNull | VBool _ | VNum _ => ∅
  end.

(** An object literal [{k1: v1, ..., kn: vn}]; later keys win. *)
Definition obj (fields : list (string * value)) : gmap string value :=
  list_to_map (reverse fields).

(** [{ k: v, ...src }]: the spread is written after [k], so a property
    [k] of [src] replaces [v]. *)
Definition literal_then_spread (k : string) (v : value) (src : value)
  : gmap string value :=
  own_props src ∪ {[ k := v ]}.

(** ** State, effects and collaborators *)

Record AuthState : Type := mkAuthState {
  token : value;
  userData : value;
  isLoading : bool
}.

(** The argument of [useState]. *)
Definition initialAuthState : AuthState :=
  {| token := VNull; userData := VNull; isLoading := false |}.

(** [{ ...prev, isLoading: b }] *)
Definition with_isLoading (b : bool) (prev : AuthState) : AuthState :=
  {| token := token prev; userData := userData prev; isLoading := b |}.

Inductive event : Type :=
  | SetAuthState (next : AuthState)
  | EthRequestAccounts
  | ConsoleWarn (label : string) (e : exn)
  | ConsoleError (label : string) (e : exn)
  | HostSignIn (nonce : string)
  | Fetch (url : string) (body : value)
  | ReadAddressRef (current : option string)
  | AppKitOpen
  | SetTimeout (ms : nat)
  | SignMessage (message : string)
  | Disconnect.

Record Response : Type := mkResponse {
  ok : bool;
  json : exn + value
}.

(** Everything [signIn] and [signOut] take from outside.  [addressRef k]
    is the content of [addressRef.current] at the [k]-th read made by the
    running invocation: the synchronising effect may change it between
    two reads. *)
Record Env : Type := mkEnv {
  (* what [isFarcasterMiniapp()] answered at this render *)
  isMiniapp : bool;
  (* [useAccount().isConnected], as captured by the closure *)
  isConnected : bool;
  (* whether [appKit?.open] is there to be called *)
  appKit_open : bool;
  addressRef : nat -> option string;
  (* outcome of [sdk.ethereum.request({ method: 'eth_requestAccounts' })];
     [None] is a null or undefined answer *)
  eth_requestAccounts : exn + option (list string);
  (* two successive [Math.random().toString(36)] *)
  random36 : string * string;
  (* outcome of [sdk.actions.signIn({ nonce, acceptAuthAddress: true })]:
     [(message, signature)] *)
  sdk_signIn : string -> exn + (string * string);
  NEXT_PUBLIC_BACKEND_ORIGIN : option string;
  location_origin : string;
  (* outcome of the POST to the given URL with the given JSON body *)
  fetch : string -> value -> exn + Response;
  (* [new Date().toISOString()] *)
  now_iso : string;
  (* outcome of [signMessageAsync({ message })] *)
  signMessageAsync : string -> exn + string
}.

Record World : Type := mkWorld {
  auth : AuthState;
  reads : nat;
  trace : list event
}.

(** ** The monad: state passing with exceptions; a throw keeps the
    effects performed before it. *)

Definition M (A : Type) : Type := World -> World * (exn + A).

#[global] Instance M_ret : MRet M := fun A (a : A) w => (w, inr a).

#[global] Instance M_bind : MBind M :=
  fun A B (f : A -> M B) (m : M A) w =>
    match m w with
    | (w', inr a) => f a w'
    | (w', inl e) => (w', inl e)
    end.

Definition throw {A : Type} (e : exn) : M A := fun w => (w, inl e).

Definition try_catch {A : Type} (body : M A) (handler : exn -> M A) : M A :=
  fun w =>
    match body w with
    | (w', inl e) => handler e w'
    | r => r
    end.

(** [await p] for a promise whose outcome the environment fixes. *)
Definition await {A : Type} (outcome : exn + A) : M A := fun w => (w, outcome).

Definition emit (e : event) : M unit :=
  fun w => ({| auth := auth w; reads := reads w; trace := trace w ++ [e] |}, inr tt).

(** [setAuthState(updater)]; a plain object argument is the constant
    updater. *)
Definition setAuthState (updater : AuthState -> AuthState) : M unit :=
  fun w =>
    let next := updater (auth w) in
    ({| auth := next; reads := reads w; trace := trace w ++ [SetAuthState next] |},
     inr tt).

(** [addressRef.current] *)
Definition readAddressRef (env : Env) : M (option string) :=
  fun w =>
    let current := addressRef env (reads w) in
    ({| auth := auth w; reads := S (reads w);
        trace := trace w ++ [ReadAddressRef current] |},
     inr current).

(** ** The code *)

(** [Math.random().toString(36).substring(2, 15)], twice. *)
Definition generateNonce (env : Env) : string :=
  String.substring 2 13 (fst (random36 env)) ++ String.substring 2 13 (snd (random36 env)).

(** [process.env.NEXT_PUBLIC_BACKEND_ORIGIN || window.location.origin] *)
Definition backendOrigin (env : Env) : string :=
  if truthy_str (NEXT_PUBLIC_BACKEND_ORIGIN env)
  then default "" (NEXT_PUBLIC_BACKEND_ORIGIN env)
  else location_origin env.

Definition auth_url (env : Env) : string := backendOrigin env ++ "/api/auth".

Definition msg_auth_failed : string := "Authentication failed".
Definition msg_not_available : string :=
  "Wallet connection not available. Please set NEXT_PUBLIC_PROJECT_ID or use the app in a Farcaster miniapp.".
Definition msg_connection_failed : string :=
  "Wallet connection failed. Please connect your wallet and try again.".
Definition msg_no_address : string := "Wallet address not available".

(** Lines 64-74: the account request; its failure is caught on the spot. *)
Definition requestWallet (env : Env) : M (option string) :=
  try_catch
    (emit EthRequestAccounts;;
     accounts ← await (eth_requestAccounts env);
     mret (match accounts with
           | Some (first :: _) => Some first
           | _ => None
           end))
    (fun walletError =>
       emit (ConsoleWarn "Wallet connection failed:" walletError);;
       mret None).

(** Lines 90-94. *)
Definition miniapp_body (walletAddress : option string) (message signature : string)
  : value :=
  VObj (obj [("message", VStr message); ("signature", VStr signature);
             ("address", of_nullable walletAddress)]).

(** Lines 76-111: steps 2 and 3 of the embedded path, the host sign-in
    and its verification by the backend. *)
Definition signInWithFarcaster (env : Env) (walletAddress : option string) : M unit :=
  let nonce := generateNonce env in
  emit (HostSignIn nonce);;
  '(message, signature) ← await (sdk_signIn env nonce);
  let body := miniapp_body walletAddress message signature in
  emit (Fetch (auth_url env) body);;
  response ← await (fetch env (auth_url env) body);
  if negb (ok response) then throw (Error msg_auth_failed)
  else
    data ← await (json response);
    fid ← await (get data "fid");
    address ← (if truthy_str walletAddress then mret (of_nullable walletAddress)
               else await (get data "address"));
    setAuthState (fun _ =>
      {| token := VStr signature;
         userData := VObj (obj [("fid", fid); ("address", address)]);
         isLoading := false |}).

(** Lines 64-111: the body of the inner [try]. *)
Definition miniappPath (env : Env) : M unit :=
  walletAddress ← requestWallet env;
  signInWithFarcaster env walletAddress.

(** Lines 132-137: [while (!currentAddress && attempts < 100)].  The
    loop counter [attempts] runs from 0 to 100; [remaining] is
    [100 - attempts], the measure the recursion goes down on. *)
Fixpoint poll (env : Env) (remaining attempts : nat) (currentAddress : option string)
  : M (option string * nat) :=
  match remaining with
  | O => mret (currentAddress, attempts)
  | S remaining' =>
      if negb (truthy_str currentAddress) then
        emit (SetTimeout 100);;
        current ← readAddressRef env;
        poll env remaining' (S attempts) current
      else mret (currentAddress, attempts)
  end.

(** Lines 120-142: the address the wallet-connector flow goes on with. *)
Definition connectWallet (env : Env) : M (option string) :=
  currentAddress ← readAddressRef env;
  if negb (isConnected env) || negb (truthy_str currentAddress) then
    (if appKit_open env then emit AppKitOpen
     else throw (Error msg_not_available));;
    '(currentAddress, _) ← poll env 100 0 currentAddress;
    if negb (truthy_str currentAddress)
    then throw (Error msg_connection_failed)
    else mret currentAddress
  else mret currentAddress.

(** Line 150. *)
Definition signInMessage (env : Env) : string :=
  "Sign in to this app at " ++ now_iso env.

(** Lines 160-164. *)
Definition browser_body (currentAddress : option string) (message signature : string)
  : value :=
  VObj (obj [("address", of_nullable currentAddress); ("message", VStr message);
             ("signature", VStr signature)]).

(** Lines 144-178: sign a message with the connected wallet and have the
    backend verify it. *)
Definition walletSignIn (env : Env) (currentAddress : option string) : M unit :=
  if negb (truthy_str currentAddress) then throw (Error msg_no_address)
  else
    let message := signInMessage env in
    emit (SignMessage message);;
    signature ← await (signMessageAsync env message);
    let body := browser_body currentAddress message signature in
    emit (Fetch (auth_url env) body);;
    response ← await (fetch env (auth_url env) body);
    if negb (ok response) then throw (Error msg_auth_failed)
    else
      data ← await (json response);
      data_token ← await (get data "token");
      let token := if truthy data_token then data_token else VStr signature in
      setAuthState (fun _ =>
        {| token := token;
           userData :=
             VObj (literal_then_spread "address" (of_nullable currentAddress) data);
           isLoading := false |}).

(** Lines 119-178: the wallet-connector flow. *)
Definition browserPath (env : Env) : M unit :=
  currentAddress ← connectWallet env;
  walletSignIn env currentAddress.

(** Lines 62-117: [true] stands for the early [return] of line 111. *)
Definition tryMiniapp (env : Env) : M bool :=
  if isMiniapp env then
    try_catch
      (miniappPath env;; mret true)
      (fun miniappError =>
         emit (ConsoleWarn "Miniapp authentication failed, falling back to AppKit:"
                           miniappError);;
         mret false)
  else mret false.

(** Lines 179-183: the handler of the outer [catch]. *)
Definition rethrow (error : exn) : M unit :=
  emit (ConsoleError "Authentication failed:" error);;
  setAuthState (with_isLoading false);;
  throw error.

(** Lines 59-117: everything [signIn] does before the wallet-connector
    flow; [true] when it has returned. *)
Definition enter (env : Env) : M bool :=
  setAuthState (with_isLoading true);;
  tryMiniapp env.

(** Lines 57-184. *)
Definition signIn (env : Env) : M unit :=
  try_catch
    (returned ← enter env;
     if (returned : bool) then mret tt else browserPath env)
    rethrow.

(** Lines 198-207. *)
Definition signOut (env : Env) : M unit :=
  (if negb (isMiniapp env) && isConnected env then emit Disconnect else mret tt);;
  setAuthState (fun _ => {| token := VNull; userData := VNull; isLoading := false |}).

(** Line 213. *)
Definition isAuthenticated (env : Env) (authState : AuthState) : bool :=
  if isMiniapp env then truthy (token authState)
  else isConnected env && truthy (token authState).

(** ** Vocabulary of the statements *)

(** [walletAddress] after lines 64-74: the first account when the request
    answers with a non-empty list, [null] in every other case. *)
Definition walletAddress_of (env : Env) : option string :=
  match eth_requestAccounts env with
  | inr (Some (first :: _)) => Some first
  | _ => None
  end.

(** What lines 64-74 add to the trace. *)
Definition requestWallet_events (env : Env) : list event :=
  EthRequestAccounts ::
  match eth_requestAccounts env with
  | inl walletError => [ConsoleWarn "Wallet connection failed:" walletError]
  | inr _ => []
  end.

(** [v] is [null] or [undefined]. *)
Definition nullish (v : value) : bool :=
  match v with
  | VUndefined | VNull => true
  | _ => false
  end.

(** [v.k] when the read does not throw. *)
Definition prop (v : value) (k : string) : value :=
  match get v k with
  | inr x => x
  | inl _ => VUndefined
  end.


Definition is_SetTimeout (e : event) : bool :=
  match e with
  | SetTimeout _ => true
  | _ => false
  end.

(** The events of [n] polls whose reads start at index [start]. *)
Definition polls (env : Env) (start n : nat) : list event :=
  flat_map (fun i => [SetTimeout 100; ReadAddressRef (addressRef env i)]) (seq start n).

(** The label of the warning of line 114. *)
Definition fallback_label : string :=
  "Miniapp authentication failed, falling back to AppKit:".

(** The world after line 59. *)
Definition loading (w : World) : World :=
  {| auth := with_isLoading true (auth w);
     reads := reads w;
     trace := trace w ++ [SetAuthState (with_isLoading true (auth w))] |}.

(** The state written by line 103. *)
Definition miniapp_state (env : Env) (signature : string) (data : value) : AuthState :=
  {| token := VStr signature;
     userData :=
       VObj (obj [("fid", prop data "fid");
                  ("address",
                   if truthy_str (walletAddress_of env)
                   then of_nullable (walletAddress_of env)
                   else prop data "address")]);
     isLoading := false |}.

(** What a successful embedded sign-in adds to the trace. *)
Definition miniapp_events (env : Env) (w : World) (message signature : string)
    (data : value) : list event :=
  (SetAuthState (with_isLoading true (auth w)) :: requestWallet_events env) ++
  [HostSignIn (generateNonce env);
   Fetch (auth_url env) (miniapp_body (walletAddress_of env) message signature);
   SetAuthState (miniapp_state env signature data)].

(** [w] is the world right after a state write that lowered [isLoading]. *)
Definition settled (w : World) : Prop :=
  isLoading (auth w) = false /\
  exists before : list event, trace w = (before ++ [SetAuthState (auth w)])%list.

(** Every run of [m] only appends to the trace. *)
Definition monotone {A : Type} (m : M A) : Prop :=
  forall w, exists tr : list event, trace (fst (m w)) = (trace w ++ tr)%list.

(** The host sign-in call of the embedded path rejects. *)
Definition host_signIn_fails (env : Env) : Prop :=
  exists e, sdk_signIn env (generateNonce env) = inl e.

(** The host sign-in call answers, and the backend verification that
    follows fails: the request rejects, the status is not 2xx, or the
    body cannot be read. *)
Definition verification_fails (env : Env) : Prop :=
  exists message signature,
    sdk_signIn env (generateNonce env) = inr (message, signature) /\
    match fetch env (auth_url env)
                (miniapp_body (walletAddress_of env) message signature) with
    | inl _ => True
    | inr response => ok response = false \/ exists e, json response = inl e
    end.

(** ** Sample collaborators *)

Definition sample_env (miniapp connected open : bool) (ref : nat -> option string)
    (accounts : exn + option (list string))
    (host : exn + (string * string)) (backend : exn + Response) : Env :=
  {| isMiniapp := miniapp;
     isConnected := connected;
     appKit_open := open;
     addressRef := ref;
     eth_requestAccounts := accounts;
     random36 := ("0.4fzyo82mvyr", "0.k1x9c0w3er");
     sdk_signIn := fun _ => host;
     NEXT_PUBLIC_BACKEND_ORIGIN := None;
     location_origin := "https://app.example";
     fetch := fun _ _ => backend;
     now_iso := "2024-01-01T00:00:00.000Z";
     signMessageAsync := fun _ => inr "sig2" |}.

Definition ok_with (body : value) : exn + Response :=
  inr {| ok := true; json := inr body |}.

Definition status_401 : exn + Response :=
  inr {| ok := false; json := inr (VObj ∅) |}.

Definition fresh : World :=
  {| auth := initialAuthState; reads := 0; trace := [] |}.

(** A session that already holds a token. *)
Definition signed_in : World :=
  {| auth := {| token := VStr "old";
                userData := VObj (obj [("fid", VNum 7)]);
                isLoading := false |};
     reads := 0; trace := [] |}.

(** ** The rest of the hook *)

(** What probing [sdk.actions] can meet: a plain value (none of which has
    a callable member), or an object for which reading [signIn] and
    taking its [typeof] either throws or gives a type name. *)
Inductive sdk_actions : Type :=
  | ActionsPlain (v : value)
  | ActionsObject (typeof_signIn : exn + string).

(** The imported [sdk] binding: [undefined], [null], or an object whose
    [actions] getter throws or answers. *)
Inductive sdk_binding : Type :=
  | SdkUndefined
  | SdkNull
  | SdkObject (actions : exn + sdk_actions).

Record Ambient : Type := mkAmbient {
  (* [typeof window !== 'undefined'] *)
  has_window : bool;
  sdk : sdk_binding
}.

(** Lines 20-25: the conjunction inside the [try].  [a && b] is [a] when
    [a] is falsy, so a falsy [sdk.actions] is returned as it is. *)
Definition probe_sdk (binding : sdk_binding) : exn + value :=
  match binding with
  | SdkUndefined => inr (VBool false)
  | SdkNull => inr (VBool false)
  | SdkObject (inl e) => inl e
  | SdkObject (inr (ActionsPlain v)) =>
      if truthy v then inr (VBool false) else inr v
  | SdkObject (inr (ActionsObject (inl e))) => inl e
  | SdkObject (inr (ActionsObject (inr type_name))) =>
      inr (VBool (String.eqb type_name "function"))
  end.

(** Lines 16-29. *)
Definition isFarcasterMiniapp (ambient : Ambient) : value :=
  if negb (has_window ambient) then VBool false
  else
    match probe_sdk (sdk ambient) with
    | inr result => result
    | inl _ => VBool false
    end.

(** The refs and state one mounted hook owns besides [addressRef]. *)
Record Hook : Type := mkHook {
  hasAutoSignedIn : bool;
  world : World
}.

(** Lines 187-196, the body of the auto sign-in effect together with the
    settling of the promise it starts: the flag is raised before [signIn]
    runs and lowered again by the [catch] callback. *)
Definition autoSignIn (env : Env) (hook : Hook) : Hook :=
  if isMiniapp env && negb (hasAutoSignedIn hook)
     && negb (truthy (token (auth (world hook))))
  then
    match signIn env (world hook) with
    | (w', inr _) => {| hasAutoSignedIn := true; world := w' |}
    | (w', inl error) =>
        {| hasAutoSignedIn := false;
           world := fst (emit (ConsoleError "Auto sign-in failed:" error) w') |}
    end
  else hook.

(** ** Counting effects *)

Inductive kind : Type :=
  | KSetAuthState
  | KEthRequestAccounts
  | KConsoleWarn
  | KConsoleError
  | KHostSignIn
  | KFetch
  | KReadAddressRef
  | KAppKitOpen
  | KSetTimeout
  | KSignMessage
  | KDisconnect.

Definition kind_of (e : event) : kind :=
  match e with
  | SetAuthState _ => KSetAuthState
  | EthRequestAccounts => KEthRequestAccounts
  | ConsoleWarn _ _ => KConsoleWarn
  | ConsoleError _ _ => KConsoleError
  | HostSignIn _ => KHostSignIn
  | Fetch _ _ => KFetch
  | ReadAddressRef _ => KReadAddressRef
  | AppKitOpen => KAppKitOpen
  | SetTimeout _ => KSetTimeout
  | SignMessage _ => KSignMessage
  | Disconnect => KDisconnect
  end.

Definition kind_eqb (a b : kind) : bool :=
  match a, b with
  | KSetAuthState, KSetAuthState | KEthRequestAccounts, KEthRequestAccounts
  | KConsoleWarn, KConsoleWarn | KConsoleError, KConsoleError
  | KHostSignIn, KHostSignIn | KFetch, KFetch
  | KReadAddressRef, KReadAddressRef | KAppKitOpen, KAppKitOpen
  | KSetTimeout, KSetTimeout | KSignMessage, KSignMessage
  | KDisconnect, KDisconnect => true
  | _, _ => false
  end.

(** How many events of kind [k] the trace holds. *)
Fixpoint tally (k : kind) (tr : list event) : nat :=
  match tr with
  | [] => 0
  | e :: rest => (if kind_eqb (kind_of e) k then 1 else 0) + tally k rest
  end.

(** The most one invocation of [signIn] adds of each kind. *)
Definition signIn_budget (k : kind) : nat :=
  match k with
  | KSetAuthState => 2
  | KEthRequestAccounts => 1
  | KConsoleWarn => 2
  | KConsoleError => 1
  | KHostSignIn => 1
  | KFetch => 2
  | KReadAddressRef => 101
  | KAppKitOpen => 1
  | KSetTimeout => 100
  | KSignMessage => 1
  | KDisconnect => 0
  end.

(** The outcome of [m], its effect on the React state and the number of
    reads it makes do not depend on what is already in the trace. *)
Definition blind {A : Type} (m : M A) : Prop :=
  forall w w',
    auth w = auth w' -> reads w = reads w' ->
    snd (m w) = snd (m w') /\
    auth (fst (m w)) = auth (fst (m w')) /\
    reads (fst (m w)) = reads (fst (m w')).

(** The same collaborators outside the embedded host. *)
Definition standalone (env : Env) : Env :=
  {| isMiniapp := false;
     isConnected := isConnected env;
     appKit_open := appKit_open env;
     addressRef := addressRef env;
     eth_requestAccounts := eth_requestAccounts env;
     random36 := random36 env;
     sdk_signIn := sdk_signIn env;
     NEXT_PUBLIC_BACKEND_ORIGIN := NEXT_PUBLIC_BACKEND_ORIGIN env;
     location_origin := location_origin env;
     fetch := fetch env;
     now_iso := now_iso env;
     signMessageAsync := signMessageAsync env |}.

(** The requests [signIn] may send and the effects it may perform. *)
Definition signIn_event (env : Env) (e : event) : Prop :=
  match e with
  | Fetch url _ => url = auth_url env
  | SetTimeout ms => ms = 100
  | Disconnect => False
  | _ => True
  end.

(** Every run of [m] adds only events that satisfy [P]. *)
Definition emits {A : Type} (P : event -> Prop) (m : M A) : Prop :=
  forall w, exists tr : list event,
    trace (fst (m w)) = (trace w ++ tr)%list /\ Forall P tr.

(** A hook that has not tried to sign in yet. *)
Definition mounted (w : World) : Hook :=
  {| hasAutoSignedIn := false; world := w |}.

(** * Properties *)

#[local] Open Scope list_scope.

Arguments obj : simpl never.
Arguments literal_then_spread : simpl never.
Arguments own_props : simpl never.
Arguments auth_url : simpl never.
Arguments generateNonce : simpl never.
Arguments signInMessage : simpl never.
Arguments miniapp_body : simpl never.
Arguments browser_body : simpl never.
Arguments get : simpl never.

(** ** Running the monad *)

Section Run.
Context {A B : Type}.

Lemma bind_inr (m : M A) (f : A -> M B) w w' a :
  m w = (w', inr a) -> (m ≫= f) w = f a w'.
Proof. intros H. unfold mbind, M_bind. now rewrite H. Qed.

Lemma bind_inl (m : M A) (f : A -> M B) w w' e :
  m w = (w', inl e) -> (m ≫= f) w = (w', inl e).
Proof. intros H. unfold mbind, M_bind. now rewrite H. Qed.

Lemma try_catch_inr (m : M A) (h : exn -> M A) w w' a :
  m w = (w', inr a) -> try_catch m h w = (w', inr a).
Proof. intros H. unfold try_catch. now rewrite H. Qed.

Lemma try_catch_inl (m : M A) (h : exn -> M A) w w' e :
  m w = (w', inl e) -> try_catch m h w = h e w'.
Proof. intros H. unfold try_catch. now rewrite H. Qed.
End Run.

Ltac run :=
  unfold mbind, M_bind, mret, M_ret, try_catch, throw, await, emit, setAuthState,
    readAddressRef in *; cbn [fst snd auth reads trace] in *.

(** ** The polling loop *)

Lemma polls_S env start n :
  polls env start (S n) =
  SetTimeout 100 :: ReadAddressRef (addressRef env start) :: polls env (S start) n.
Proof. reflexivity. Qed.

Lemma poll_present env remaining attempts current w :
  truthy_str current = true ->
  poll env remaining attempts current w = (w, inr (current, attempts)).
Proof. intros H. destruct remaining; simpl; [reflexivity|]. now rewrite H. Qed.

(** No address at any of the [remaining] reads: the loop runs
    [remaining] times and gives up empty-handed. *)
Lemma poll_exhausted env remaining : forall attempts current w,
  truthy_str current = false ->
  (forall i, i < remaining -> truthy_str (addressRef env (reads w + i)) = false) ->
  exists last,
    truthy_str last = false /\
    poll env remaining attempts current w =
      ({| auth := auth w; reads := reads w + remaining;
          trace := trace w ++ polls env (reads w) remaining |},
       inr (last, attempts + remaining)).
Proof.
  induction remaining as [|r IH]; intros attempts current w Hc Hall.
  - exists current. split; [assumption|]. simpl. unfold mret, M_ret.
    rewrite !Nat.add_0_r, app_nil_r. now destruct w.
  - simpl. rewrite Hc. simpl. run.
    set (w1 := {| auth := auth w; reads := S (reads w);
                  trace := (trace w ++ [SetTimeout 100]) ++
                           [ReadAddressRef (addressRef env (reads w))] |}).
    destruct (IH (S attempts) (addressRef env (reads w)) w1) as (last & Hl & Hrun).
    + specialize (Hall 0). rewrite Nat.add_0_r in Hall. apply Hall. lia.
    + intros i Hi. subst w1. simpl. replace (S (reads w + i)) with (reads w + S i) by lia.
      apply Hall. lia.
    + exists last. split; [assumption|]. rewrite Hrun. subst w1. simpl.
      rewrite polls_S, <- !app_assoc. simpl.
      repeat f_equal; lia.
Qed.

(** The first address shows up at the read of index [reads w + k]: the
    loop runs [k + 1] times and hands that address on. *)
Lemma poll_found env k : forall remaining attempts current w,
  truthy_str current = false ->
  k < remaining ->
  (forall i, i < k -> truthy_str (addressRef env (reads w + i)) = false) ->
  truthy_str (addressRef env (reads w + k)) = true ->
  poll env remaining attempts current w =
    ({| auth := auth w; reads := reads w + S k;
        trace := trace w ++ polls env (reads w) (S k) |},
     inr (addressRef env (reads w + k), attempts + S k)).
Proof.
  induction k as [|k IH]; intros remaining attempts current w Hc Hk Habs Hpres;
    (destruct remaining as [|r]; [lia|]); simpl; rewrite Hc; simpl; run.
  - rewrite Nat.add_0_r in Hpres. rewrite poll_present by assumption.
    rewrite <- !app_assoc, Nat.add_0_r. simpl. repeat f_equal; lia.
  - set (w1 := {| auth := auth w; reads := S (reads w);
                  trace := (trace w ++ [SetTimeout 100]) ++
                           [ReadAddressRef (addressRef env (reads w))] |}).
    rewrite (IH r (S attempts) (addressRef env (reads w)) w1).
    + subst w1. simpl. rewrite <- !app_assoc. simpl.
      replace (S (reads w + k)) with (reads w + S k) by lia.
      repeat f_equal; lia.
    + specialize (Habs 0). rewrite Nat.add_0_r in Habs. apply Habs. lia.
    + lia.
    + intros i Hi. subst w1. simpl. replace (S (reads w + i)) with (reads w + S i) by lia.
      apply Habs. lia.
    + subst w1. simpl. now replace (S (reads w + k)) with (reads w + S k) by lia.
Qed.

(** The loop never changes the React state and never throws. *)
Lemma poll_total env remaining : forall attempts current w,
  exists w' last n,
    poll env remaining attempts current w = (w', inr (last, n)) /\
    auth w' = auth w /\ n <= attempts + remaining /\
    exists k, k <= remaining /\ trace w' = trace w ++ polls env (reads w) k.
Proof.
  induction remaining as [|r IH]; intros attempts current w.
  - exists w, current, attempts. simpl. unfold mret, M_ret.
    repeat split; [lia|]. exists 0. split; [lia|]. simpl. now rewrite app_nil_r.
  - simpl. destruct (truthy_str current); simpl.
    + exists w, current, attempts. unfold mret, M_ret.
      repeat split; [lia|]. exists 0. split; [lia|]. simpl. now rewrite app_nil_r.
    + run.
      set (w1 := {| auth := auth w; reads := S (reads w);
                    trace := (trace w ++ [SetTimeout 100]) ++
                             [ReadAddressRef (addressRef env (reads w))] |}).
      destruct (IH (S attempts) (addressRef env (reads w)) w1)
        as (w' & last & n & Hrun & Hauth & Hn & k & Hk & Htr).
      exists w', last, n. rewrite Hrun. repeat split; [assumption|lia|].
      exists (S k). split; [lia|]. rewrite Htr. subst w1. simpl.
      now rewrite polls_S, <- !app_assoc.
Qed.

Arguments poll : simpl never.

(** ** What each block does to the React state *)

Ltac cases := repeat (run; simpl in *; try case_match; simplify_eq; try done).

Lemma requestWallet_auth env w :
  exists w' walletAddress,
    requestWallet env w = (w', inr walletAddress) /\ auth w' = auth w.
Proof.
  unfold requestWallet. run.
  destruct (eth_requestAccounts env) as [e|[[|first rest]|]]; simpl; eauto.
Qed.

(** The embedded path writes the state only in its last statement. *)
Lemma miniappPath_auth env w :
  match miniappPath env w with
  | (w', inl _) => auth w' = auth w
  | (w', inr _) => settled w'
  end.
Proof.
  unfold miniappPath, signInWithFarcaster, settled.
  destruct (requestWallet_auth env w) as (w1 & wa & Hrw & Hauth).
  unfold mbind at 1, M_bind at 1. rewrite Hrw. destruct w1 as [a1 r1 t1].
  simpl in Hauth. subst a1. cases; eauto.
Qed.

Lemma tryMiniapp_auth env w :
  match tryMiniapp env w with
  | (w', inr true) => isMiniapp env = true /\ settled w'
  | (w', inr false) => auth w' = auth w
  | (_, inl _) => False
  end.
Proof.
  unfold tryMiniapp. destruct (isMiniapp env); [|reflexivity].
  pose proof (miniappPath_auth env w) as H.
  unfold try_catch, mbind, M_bind.
  destruct (miniappPath env w) as [w1 [e|[]]]; simpl; auto.
Qed.

Lemma connectWallet_auth env w :
  auth (fst (connectWallet env w)) = auth w.
Proof.
  unfold connectWallet. run.
  destruct (negb (isConnected env) || negb (truthy_str (addressRef env (reads w))));
    [|reflexivity].
  destruct (appKit_open env); simpl; [|reflexivity].
  match goal with |- context [poll env 100 0 ?c ?w1] =>
    destruct (poll_total env 100 0 c w1) as (w' & last & n & Hrun & Hauth & _)
  end.
  rewrite Hrun. simpl in Hauth. destruct (truthy_str last); simpl; assumption.
Qed.

Lemma walletSignIn_auth env currentAddress w :
  match walletSignIn env currentAddress w with
  | (w', inl _) => auth w' = auth w
  | (w', inr _) => settled w'
  end.
Proof. unfold walletSignIn, settled. cases; eauto. Qed.

Lemma browserPath_auth env w :
  match browserPath env w with
  | (w', inl _) => auth w' = auth w
  | (w', inr _) => settled w'
  end.
Proof.
  unfold browserPath, mbind, M_bind.
  pose proof (connectWallet_auth env w) as Hc.
  destruct (connectWallet env w) as [w1 [e|current]]; simpl in Hc; [assumption|].
  pose proof (walletSignIn_auth env current w1) as Hs.
  destruct (walletSignIn env current w1) as [w2 [e|[]]]; congruence.
Qed.

(** The body of the outer [try]: when it throws, the only write so far is
    the one that raised [isLoading]. *)
Lemma signIn_body_auth env w :
  match (returned ← enter env;
         if (returned : bool) then mret tt else browserPath env) w with
  | (w', inl _) => auth w' = with_isLoading true (auth w)
  | (w', inr _) => settled w'
  end.
Proof.
  unfold enter. run.
  match goal with |- context [tryMiniapp env ?w1] =>
    pose proof (tryMiniapp_auth env w1) as Ht;
    destruct (tryMiniapp env w1) as [w2 [e|[|]]]
  end; simpl in *; [contradiction|tauto|].
  pose proof (browserPath_auth env w2) as Hb.
  destruct (browserPath env w2) as [w3 [e|[]]]; congruence.
Qed.

(** Whatever the outcome, [signIn] ends on a state write that lowers
    [isLoading]; when it throws, nothing else has changed, and that write
    comes right after the error has been logged. *)
Lemma signIn_auth env w :
  settled (fst (signIn env w)) /\
  match snd (signIn env w) with
  | inl error =>
      auth (fst (signIn env w)) = with_isLoading false (auth w) /\
      exists before,
        trace (fst (signIn env w)) =
        before ++ [ConsoleError "Authentication failed:" error;
                   SetAuthState (with_isLoading false (auth w))]
  | inr _ => True
  end.
Proof.
  unfold signIn, try_catch. pose proof (signIn_body_auth env w) as H.
  destruct ((returned ← enter env;
             if (returned : bool) then mret tt else browserPath env) w)
    as [w1 [e|[]]]; [|now split].
  unfold rethrow, settled. run. rewrite H. simpl.
  repeat split; eauto. exists (trace w1). now rewrite <- app_assoc.
Qed.

(** ** The trace only grows *)

Section Monotone.
Context {A B : Type}.

Lemma monotone_ret (a : A) : monotone (mret a).
Proof. intros w. exists []. simpl. now rewrite app_nil_r. Qed.

Lemma monotone_throw (e : exn) : monotone (@throw A e).
Proof. intros w. exists []. simpl. now rewrite app_nil_r. Qed.

Lemma monotone_await (o : exn + A) : monotone (await o).
Proof. intros w. exists []. simpl. now rewrite app_nil_r. Qed.

Lemma monotone_bind (m : M A) (f : A -> M B) :
  monotone m -> (forall a, monotone (f a)) -> monotone (m ≫= f).
Proof.
  intros Hm Hf w. unfold mbind, M_bind. destruct (Hm w) as [tr1 H1].
  destruct (m w) as [w1 [e|a]]; simpl in *; [eauto|].
  destruct (Hf a w1) as [tr2 H2]. exists (tr1 ++ tr2).
  now rewrite H2, H1, app_assoc.
Qed.

Lemma monotone_try_catch (m : M A) (h : exn -> M A) :
  monotone m -> (forall e, monotone (h e)) -> monotone (try_catch m h).
Proof.
  intros Hm Hh w. unfold try_catch. destruct (Hm w) as [tr1 H1].
  destruct (m w) as [w1 [e|a]]; simpl in *; [|eauto].
  destruct (Hh e w1) as [tr2 H2]. exists (tr1 ++ tr2).
  now rewrite H2, H1, app_assoc.
Qed.
End Monotone.

Lemma monotone_emit e : monotone (emit e).
Proof. intros w. now exists [e]. Qed.

Lemma monotone_setAuthState f : monotone (setAuthState f).
Proof. intros w. now exists [SetAuthState (f (auth w))]. Qed.

Lemma monotone_readAddressRef env : monotone (readAddressRef env).
Proof. intros w. now exists [ReadAddressRef (addressRef env (reads w))]. Qed.

Lemma monotone_poll env remaining attempts current :
  monotone (poll env remaining attempts current).
Proof.
  intros w.
  destruct (poll_total env remaining attempts current w)
    as (w' & last & n & Hrun & _ & _ & k & _ & Htr).
  rewrite Hrun. eauto.
Qed.

Create HintDb mono.
#[local] Hint Resolve monotone_ret monotone_throw monotone_await monotone_emit
  monotone_setAuthState monotone_readAddressRef monotone_poll : mono.

Ltac mono :=
  repeat match goal with
  | |- forall _, _ => intro
  | |- monotone (_ ≫= _) => apply monotone_bind
  | |- monotone (try_catch _ _) => apply monotone_try_catch
  | |- monotone _ => solve [auto with mono]
  | |- monotone _ => case_match
  end.

Lemma monotone_miniappPath env : monotone (miniappPath env).
Proof. unfold miniappPath, signInWithFarcaster, requestWallet. mono. Qed.

Lemma monotone_tryMiniapp env : monotone (tryMiniapp env).
Proof. unfold tryMiniapp. pose proof (monotone_miniappPath env). mono. Qed.

Lemma monotone_browserPath env : monotone (browserPath env).
Proof. unfold browserPath, connectWallet, walletSignIn. mono. Qed.

Lemma monotone_rethrow e : monotone (rethrow e).
Proof. unfold rethrow. mono. Qed.

(** ** Entering [signIn] *)

Lemma enter_run env w : enter env w = tryMiniapp env (loading w).
Proof. reflexivity. Qed.

Lemma signIn_returned env w w1 :
  enter env w = (w1, inr true) -> signIn env w = (w1, inr tt).
Proof. intros H. unfold signIn, try_catch, mbind, M_bind. now rewrite H. Qed.

Lemma signIn_fallthrough env w w1 :
  enter env w = (w1, inr false) ->
  signIn env w = try_catch (browserPath env) rethrow w1.
Proof. intros H. unfold signIn, try_catch, mbind, M_bind. now rewrite H. Qed.

Lemma enter_browser env w :
  isMiniapp env = false -> enter env w = (loading w, inr false).
Proof. intros H. rewrite enter_run. unfold tryMiniapp. now rewrite H. Qed.

(** ** The embedded path *)

Lemma requestWallet_run env w :
  requestWallet env w =
    ({| auth := auth w; reads := reads w;
        trace := trace w ++ requestWallet_events env |},
     inr (walletAddress_of env)).
Proof.
  unfold requestWallet, requestWallet_events, walletAddress_of. run.
  destruct (eth_requestAccounts env) as [e|[[|first rest]|]]; simpl;
    rewrite <- ?app_assoc; reflexivity.
Qed.

Lemma get_prop data k : nullish data = false -> get data k = inr (prop data k).
Proof. unfold prop. destruct data; simpl; intros H; try discriminate; reflexivity. Qed.

Lemma miniappPath_success env w message signature response data :
  sdk_signIn env (generateNonce env) = inr (message, signature) ->
  fetch env (auth_url env) (miniapp_body (walletAddress_of env) message signature)
    = inr response ->
  ok response = true ->
  json response = inr data ->
  nullish data = false ->
  miniappPath env w =
    ({| auth := miniapp_state env signature data;
        reads := reads w;
        trace := trace w ++ requestWallet_events env ++
                 [HostSignIn (generateNonce env);
                  Fetch (auth_url env)
                        (miniapp_body (walletAddress_of env) message signature);
                  SetAuthState (miniapp_state env signature data)] |},
     inr tt).
Proof.
  intros Hhost Hfetch Hok Hjson Hdata. unfold miniappPath.
  erewrite bind_inr by apply requestWallet_run.
  unfold signInWithFarcaster. run. rewrite Hhost. simpl. rewrite Hfetch, Hok. simpl. rewrite Hjson.
  rewrite !(get_prop data) by assumption. unfold miniapp_state.
  destruct (truthy_str (walletAddress_of env)); simpl;
    rewrite <- !app_assoc; reflexivity.
Qed.


Lemma signIn_miniapp_run env w message signature response data :
  isMiniapp env = true ->
  sdk_signIn env (generateNonce env) = inr (message, signature) ->
  fetch env (auth_url env) (miniapp_body (walletAddress_of env) message signature)
    = inr response ->
  ok response = true ->
  json response = inr data ->
  nullish data = false ->
  signIn env w =
    ({| auth := miniapp_state env signature data;
        reads := reads w;
        trace := trace w ++ miniapp_events env w message signature data |},
     inr tt).
Proof.
  intros Hmini Hhost Hfetch Hok Hjson Hdata.
  apply signIn_returned. rewrite enter_run. unfold tryMiniapp. rewrite Hmini.
  apply try_catch_inr. erewrite bind_inr
    by (eapply miniappPath_success; eassumption).
  unfold miniapp_events, loading. simpl.
  rewrite <- !app_assoc. reflexivity.
Qed.



(** ** Falling back from the embedded path *)

Lemma signInWithFarcaster_throws env w :
  host_signIn_fails env \/ verification_fails env ->
  exists e tr,
    signInWithFarcaster env (walletAddress_of env) w =
      ({| auth := auth w; reads := reads w; trace := trace w ++ tr |}, inl e).
Proof.
  unfold signInWithFarcaster.
  intros [[e He]|(message & signature & Hhost & Hver)]; run.
  - rewrite He. eauto.
  - rewrite Hhost. simpl.
    destruct (fetch env (auth_url env)
                (miniapp_body (walletAddress_of env) message signature))
      as [e|response]; simpl.
    + exists e. eexists. rewrite <- app_assoc. reflexivity.
    + destruct Hver as [Hok|[e He]].
      * rewrite Hok. simpl. eexists _, _. rewrite <- app_assoc. reflexivity.
      * destruct (ok response); simpl.
        -- rewrite He. exists e. eexists. rewrite <- app_assoc. reflexivity.
        -- eexists _, _. rewrite <- app_assoc. reflexivity.
Qed.

Lemma miniappPath_throws env w :
  host_signIn_fails env \/ verification_fails env ->
  exists e tr,
    miniappPath env w =
      ({| auth := auth w; reads := reads w; trace := trace w ++ tr |}, inl e).
Proof.
  intros H. unfold miniappPath. erewrite bind_inr by apply requestWallet_run.
  match goal with |- context [signInWithFarcaster env _ ?w1] =>
    destruct (signInWithFarcaster_throws env w1 H) as (e & tr & Hrun)
  end.
  rewrite Hrun. simpl. exists e. eexists. rewrite <- app_assoc. reflexivity.
Qed.

Lemma enter_fallback env w :
  isMiniapp env = true ->
  host_signIn_fails env \/ verification_fails env ->
  exists miniappError tr,
    enter env w =
      ({| auth := with_isLoading true (auth w); reads := reads w;
          trace := (trace w ++ tr) ++ [ConsoleWarn fallback_label miniappError] |},
       inr false).
Proof.
  intros Hmini H. rewrite enter_run. unfold tryMiniapp. rewrite Hmini.
  destruct (miniappPath_throws env (loading w) H) as (e & tr & Hrun).
  erewrite try_catch_inl by (erewrite bind_inl by apply Hrun; reflexivity).
  run. exists e, (SetAuthState (with_isLoading true (auth w)) :: tr).
  unfold loading. simpl. rewrite <- !app_assoc. reflexivity.
Qed.

Lemma emit_prefix {A} (e : event) (k : M A) w :
  monotone k -> exists rest, trace (fst ((emit e;; k) w)) = trace w ++ e :: rest.
Proof.
  intros Hk. run.
  destruct (Hk {| auth := auth w; reads := reads w; trace := trace w ++ [e] |})
    as [rest Hrest].
  exists rest. rewrite Hrest. simpl. now rewrite <- app_assoc.
Qed.

Lemma miniappPath_prefix env w :
  exists rest,
    trace (fst (miniappPath env w)) =
    trace w ++ requestWallet_events env ++ HostSignIn (generateNonce env) :: rest.
Proof.
  unfold miniappPath. erewrite bind_inr by apply requestWallet_run.
  unfold signInWithFarcaster.
  match goal with |- context [(emit ?e ≫= ?k) ?w1] =>
    destruct (emit_prefix e (k tt) w1) as [rest Hrest]; [mono|]
  end.
  exists rest. rewrite Hrest. simpl. now rewrite <- app_assoc.
Qed.

Lemma signIn_extends_enter env w :
  exists rest, trace (fst (signIn env w)) = trace (fst (enter env w)) ++ rest.
Proof.
  unfold signIn, try_catch at 1, mbind at 1, M_bind at 1.
  destruct (enter env w) as [w1 [e|[|]]]; simpl.
  - apply monotone_rethrow.
  - exists []. now rewrite app_nil_r.
  - apply (monotone_try_catch (browserPath env) rethrow);
      auto using monotone_browserPath, monotone_rethrow.
Qed.

Lemma tryMiniapp_extends env w :
  isMiniapp env = true ->
  exists rest, trace (fst (tryMiniapp env w)) = trace (fst (miniappPath env w)) ++ rest.
Proof.
  intros Hmini. unfold tryMiniapp, try_catch, mbind, M_bind. rewrite Hmini.
  destruct (miniappPath env w) as [w1 [e|[]]]; simpl.
  - eauto.
  - exists []. now rewrite app_nil_r.
Qed.

(** C2.  In the embedded environment: (a) when the account request
    rejects, the rejection is logged and the very next effect is the host
    sign-in call, so the embedded path goes on, and it still succeeds when
    the host and the backend answer; (b) when the host sign-in call
    rejects, or the backend verification fails (rejected request, non-2xx
    status, unreadable body), nothing is thrown at that point: the failure
    is logged, the state still only has [isLoading] raised, and [signIn]
    is from there on the wallet-connector flow under the outer handler;
    the caller gets an error only if that flow throws it. *)
Theorem signIn_miniapp_failures env w :
  isMiniapp env = true ->
  (forall walletError, eth_requestAccounts env = inl walletError ->
     (exists rest,
        trace (fst (signIn env w)) =
        trace w ++ [SetAuthState (with_isLoading true (auth w));
                    EthRequestAccounts;
                    ConsoleWarn "Wallet connection failed:" walletError;
                    HostSignIn (generateNonce env)] ++ rest) /\
     (forall message signature response data,
        sdk_signIn env (generateNonce env) = inr (message, signature) ->
        fetch env (auth_url env) (miniapp_body None message signature) = inr response ->
        ok response = true ->
        json response = inr data ->
        nullish data = false ->
        snd (signIn env w) = inr tt /\
        token (auth (fst (signIn env w))) = VStr signature /\
        reads (fst (signIn env w)) = reads w)) /\
  (host_signIn_fails env \/ verification_fails env ->
   exists w1 miniappError before,
     enter env w = (w1, inr false) /\
     trace w1 = before ++ [ConsoleWarn fallback_label miniappError] /\
     auth w1 = with_isLoading true (auth w) /\
     signIn env w = try_catch (browserPath env) rethrow w1 /\
     (forall error, snd (signIn env w) = inl error ->
                    snd (browserPath env w1) = inl error) /\
     (snd (browserPath env w1) = inr tt -> snd (signIn env w) = inr tt)).
Proof.
  intros Hmini. split.
  - intros walletError Hacc. split.
    + destruct (signIn_extends_enter env w) as [r1 H1].
      rewrite enter_run in H1.
      destruct (tryMiniapp_extends env (loading w) Hmini) as [r2 H2].
      destruct (miniappPath_prefix env (loading w)) as [r3 H3].
      exists (r3 ++ r2 ++ r1). rewrite H1, H2, H3.
      unfold requestWallet_events, loading. rewrite Hacc. simpl.
      rewrite <- !app_assoc. reflexivity.
    + intros message signature response data Hhost Hfetch Hok Hjson Hdata.
      assert (Hwa : walletAddress_of env = None)
        by (unfold walletAddress_of; now rewrite Hacc).
      rewrite <- Hwa in Hfetch.
      erewrite signIn_miniapp_run by eassumption. simpl. auto.
  - intros Hfail.
    destruct (enter_fallback env w Hmini Hfail) as (e & tr & Henter).
    eexists _, e, _. split; [exact Henter|].
    split; [reflexivity|]. split; [reflexivity|].
    rewrite (signIn_fallthrough _ _ _ Henter). split; [reflexivity|].
    unfold try_catch.
    match goal with |- context [browserPath env ?w1] =>
      destruct (browserPath env w1) as [w2 [e'|[]]]
    end; simpl; split; try congruence; try discriminate.
Qed.

(** The account request rejects and the host sign-in call rejects after
    it; the wallet is connected, so the fallback succeeds. *)
Lemma signIn_miniapp_failures_witness :
  let env := sample_env true true false (fun _ => Some "0xBBB"%string)
               (inl (Error "no provider")) (inl (Error "rejected"))
               (ok_with (VObj ∅)) in
  (exists rest,
     trace (fst (signIn env fresh)) =
     [SetAuthState (with_isLoading true initialAuthState);
      EthRequestAccounts;
      ConsoleWarn "Wallet connection failed:" (Error "no provider");
      HostSignIn (generateNonce env)] ++ rest) /\
  snd (signIn env fresh) = inr tt.
Proof.
  intros env.
  destruct (signIn_miniapp_failures env fresh eq_refl) as [Ha Hb]. split.
  - destruct (Ha (Error "no provider") eq_refl) as [Hrest _]. exact Hrest.
  - destruct Hb as (w1 & e & before & Henter & _ & _ & _ & _ & Hok).
    + left. exists (Error "rejected"). reflexivity.
    + apply Hok. vm_compute in Henter. inversion Henter; subst w1. reflexivity.
Defined.

(** ** The wallet-connector flow *)

Lemma connectWallet_connected env w :
  isConnected env = true ->
  truthy_str (addressRef env (reads w)) = true ->
  connectWallet env w =
    ({| auth := auth w; reads := S (reads w);
        trace := trace w ++ [ReadAddressRef (addressRef env (reads w))] |},
     inr (addressRef env (reads w))).
Proof. intros Hc Ha. unfold connectWallet. run. now rewrite Hc, Ha. Qed.

Lemma connectWallet_not_available env w :
  isConnected env = false \/ truthy_str (addressRef env (reads w)) = false ->
  appKit_open env = false ->
  connectWallet env w =
    ({| auth := auth w; reads := S (reads w);
        trace := trace w ++ [ReadAddressRef (addressRef env (reads w))] |},
     inl (Error msg_not_available)).
Proof.
  intros Hno Hopen. unfold connectWallet. run.
  replace (negb (isConnected env) || negb (truthy_str (addressRef env (reads w))))
    with true by (destruct Hno as [-> | ->]; simpl; now rewrite ?orb_true_r).
  now rewrite Hopen.
Qed.

Lemma connectWallet_exhausted env w :
  truthy_str (addressRef env (reads w)) = false ->
  appKit_open env = true ->
  (forall i, 1 <= i <= 100 -> truthy_str (addressRef env (reads w + i)) = false) ->
  connectWallet env w =
    ({| auth := auth w; reads := reads w + 101;
        trace := trace w ++ [ReadAddressRef (addressRef env (reads w)); AppKitOpen] ++
                 polls env (S (reads w)) 100 |},
     inl (Error msg_connection_failed)).
Proof.
  intros Ha Hopen Hall. unfold connectWallet. run.
  rewrite Ha, Hopen, orb_true_r. simpl.
  match goal with |- context [poll env 100 0 ?c ?w1] =>
    destruct (poll_exhausted env 100 0 c w1 Ha) as (last & Hlast & Hrun)
  end.
  - intros i Hi. simpl. replace (S (reads w + i)) with (reads w + S i) by lia.
    apply Hall. lia.
  - rewrite Hrun, Hlast. simpl. rewrite <- !app_assoc. simpl.
    repeat f_equal. lia.
Qed.

Lemma connectWallet_found env w k :
  truthy_str (addressRef env (reads w)) = false ->
  appKit_open env = true ->
  1 <= k <= 100 ->
  (forall i, 1 <= i < k -> truthy_str (addressRef env (reads w + i)) = false) ->
  truthy_str (addressRef env (reads w + k)) = true ->
  connectWallet env w =
    ({| auth := auth w; reads := reads w + 1 + k;
        trace := trace w ++ [ReadAddressRef (addressRef env (reads w)); AppKitOpen] ++
                 polls env (S (reads w)) k |},
     inr (addressRef env (reads w + k))).
Proof.
  intros Ha Hopen Hk Habs Hpres. unfold connectWallet. run.
  rewrite Ha, Hopen, orb_true_r. simpl.
  destruct k as [|k]; [lia|].
  match goal with |- context [poll env 100 0 ?c ?w1] =>
    rewrite (poll_found env k 100 0 c w1)
  end; simpl; try assumption; try lia.
  - replace (S (reads w + k)) with (reads w + S k) by lia. rewrite Hpres. simpl.
    rewrite <- !app_assoc. simpl. repeat f_equal. lia.
  - intros i Hi. replace (S (reads w + i)) with (reads w + S i) by lia.
    apply Habs. lia.
  - now replace (S (reads w + k)) with (reads w + S k) by lia.
Qed.

(** Line 145 is never taken: whatever [connectWallet] hands on is an
    address. *)
Lemma connectWallet_truthy env w w' currentAddress :
  connectWallet env w = (w', inr currentAddress) -> truthy_str currentAddress = true.
Proof.
  unfold connectWallet. run.
  destruct (isConnected env), (truthy_str (addressRef env (reads w))) eqn:Ha;
    simpl; try (intros [= _ <-]; assumption);
    (destruct (appKit_open env); simpl; [|discriminate]);
    match goal with |- context [poll env 100 0 ?c ?w1] =>
      destruct (poll_total env 100 0 c w1) as (w2 & last & n & Hrun & _)
    end; rewrite Hrun; destruct (truthy_str last) eqn:Hl; simpl;
    try discriminate; intros [= _ <-]; assumption.
Qed.


(** Once an address is at hand, the flow starts with the wallet
    signature and sets no timer any more. *)
Lemma walletSignIn_trace env w currentAddress :
  truthy_str currentAddress = true ->
  exists rest,
    trace (fst (walletSignIn env currentAddress w)) =
      trace w ++ SignMessage (signInMessage env) :: rest /\
    Forall (fun e => is_SetTimeout e = false) rest /\
    reads (fst (walletSignIn env currentAddress w)) = reads w.
Proof.
  intros Ha. unfold walletSignIn. rewrite Ha.
  cases; rewrite <- ?app_assoc; simpl; eexists; (split; [reflexivity|]);
    split; try reflexivity; repeat constructor.
Qed.

Lemma try_catch_rethrow (m : M unit) w :
  try_catch m rethrow w =
  match m w with
  | (w', inl error) =>
      ({| auth := with_isLoading false (auth w'); reads := reads w';
          trace := trace w' ++ [ConsoleError "Authentication failed:" error;
                                SetAuthState (with_isLoading false (auth w'))] |},
       inl error)
  | (w', inr a) => (w', inr a)
  end.
Proof.
  unfold try_catch, rethrow. destruct (m w) as [w' [e|a]]; [|reflexivity].
  run. now rewrite <- app_assoc.
Qed.

(** C3.  The wallet-connector flow is reached in [w1], the address read
    there is absent and the connection UI has been opened.  (a) If the
    address is absent at each of the next 100 reads, [signIn] performs
    exactly 100 rounds of a 100 ms timer followed by a read, then throws
    the "Wallet connection failed" error.  (b) If the first address shows
    up at the [k]-th poll, [1 <= k <= 100], [signIn] performs exactly [k]
    such rounds and goes on with the wallet signature, setting no further
    timer.  (c) In any world the loop returns, after at most 100 rounds. *)
Theorem signIn_polling env w w1 :
  enter env w = (w1, inr false) ->
  truthy_str (addressRef env (reads w1)) = false ->
  appKit_open env = true ->
  let opened :=
    trace w1 ++ [ReadAddressRef (addressRef env (reads w1)); AppKitOpen] in
  ((forall i, 1 <= i <= 100 -> truthy_str (addressRef env (reads w1 + i)) = false) ->
   signIn env w =
     ({| auth := with_isLoading false (auth w1);
         reads := reads w1 + 101;
         trace := (opened ++ polls env (S (reads w1)) 100) ++
                  [ConsoleError "Authentication failed:" (Error msg_connection_failed);
                   SetAuthState (with_isLoading false (auth w1))] |},
      inl (Error msg_connection_failed))) /\
  (forall k,
     1 <= k <= 100 ->
     (forall i, 1 <= i < k -> truthy_str (addressRef env (reads w1 + i)) = false) ->
     truthy_str (addressRef env (reads w1 + k)) = true ->
     exists rest,
       trace (fst (signIn env w)) =
         (opened ++ polls env (S (reads w1)) k) ++
         SignMessage (signInMessage env) :: rest /\
       Forall (fun e => is_SetTimeout e = false) rest /\
       reads (fst (signIn env w)) = reads w1 + 1 + k) /\
  (forall current w0,
     exists w' last attempts rounds,
       poll env 100 0 current w0 = (w', inr (last, attempts)) /\
       attempts <= 100 /\ rounds <= 100 /\
       trace w' = trace w0 ++ polls env (reads w0) rounds).
Proof.
  intros Henter Ha Hopen opened. rewrite (signIn_fallthrough _ _ _ Henter).
  rewrite try_catch_rethrow. unfold browserPath. repeat split.
  - intros Hall. erewrite bind_inl by (apply connectWallet_exhausted; assumption).
    subst opened. simpl. rewrite <- !app_assoc. reflexivity.
  - intros k Hk Habs Hpres.
    erewrite bind_inr by (apply (connectWallet_found env w1 k); assumption).
    match goal with |- context [walletSignIn env ?c ?w2] =>
      destruct (walletSignIn_trace env w2 c Hpres) as (rest & Htr & Hrest & Hreads);
      destruct (walletSignIn env c w2) as [w3 [e|[]]]
    end; simpl in *; rewrite Htr; subst opened.
    + eexists. split; [rewrite <- !app_assoc; simpl; reflexivity|].
      split; [|assumption]. apply Forall_app. split; [assumption|].
      repeat constructor.
    + exists rest. rewrite <- !app_assoc. simpl. auto.
  - intros current w0.
    destruct (poll_total env 100 0 current w0)
      as (w' & last & n & Hrun & _ & Hn & k & Hk & Htr).
    exists w', last, n, k. auto.
Qed.

(** No wallet ever connects: 100 rounds, then the error. *)
Lemma signIn_polling_witness :
  let env := sample_env false false true (fun _ => None) (inr None)
               (inl (Error "unused")) status_401 in
  snd (signIn env fresh) = inl (Error msg_connection_failed) /\
  reads (fst (signIn env fresh)) = 101.
Proof.
  intros env.
  destruct (signIn_polling env fresh (loading fresh) eq_refl eq_refl eq_refl)
    as [Hexhausted _].
  rewrite Hexhausted by (intros; reflexivity). split; reflexivity.
Defined.

(** C7.  Not embedded, no active connection or no known address, and no
    open-UI action: [signIn] throws the "Wallet connection not available"
    error after one read of the address ref; [isLoading] is false
    afterwards and [token] and [userData] are what they were. *)
Theorem signIn_not_available env w :
  isMiniapp env = false ->
  isConnected env = false \/ truthy_str (addressRef env (reads w)) = false ->
  appKit_open env = false ->
  snd (signIn env w) = inl (Error msg_not_available) /\
  isLoading (auth (fst (signIn env w))) = false /\
  token (auth (fst (signIn env w))) = token (auth w) /\
  userData (auth (fst (signIn env w))) = userData (auth w) /\
  trace (fst (signIn env w)) =
    trace w ++ [SetAuthState (with_isLoading true (auth w));
                ReadAddressRef (addressRef env (reads w));
                ConsoleError "Authentication failed:" (Error msg_not_available);
                SetAuthState (with_isLoading false (auth w))].
Proof.
  intros Hmini Hno Hopen.
  rewrite (signIn_fallthrough _ _ _ (enter_browser env w Hmini)).
  rewrite try_catch_rethrow. unfold browserPath.
  erewrite bind_inl by (apply connectWallet_not_available; assumption).
  simpl. repeat split. now rewrite <- !app_assoc.
Qed.

(** The scenario of the specification: detection false, connector not
    connected, open-UI action absent, token absent. *)
Lemma signIn_not_available_witness :
  let env := sample_env false false false (fun _ => None) (inr None)
               (inl (Error "unused")) status_401 in
  snd (signIn env fresh) = inl (Error msg_not_available) /\
  auth (fst (signIn env fresh)) = initialAuthState.
Proof.
  intros env.
  destruct (signIn_not_available env fresh eq_refl (or_introl eq_refl) eq_refl)
    as (Hr & Hl & Ht & Hu & _).
  split; [exact Hr|].
  destruct (auth (fst (signIn env fresh))) as [t u l]. simpl in *.
  now rewrite Hl, Ht, Hu.
Defined.



(** ** Where the stored address comes from *)

Lemma literal_then_spread_own k v data x :
  own_props data !! k = Some x -> literal_then_spread k v data !! k = Some x.
Proof. intros H. unfold literal_then_spread. now apply lookup_union_Some_l. Qed.

Lemma literal_then_spread_default k v data :
  own_props data !! k = None -> literal_then_spread k v data !! k = Some v.
Proof.
  intros H. unfold literal_then_spread.
  rewrite lookup_union_r by assumption. apply lookup_singleton_eq.
Qed.

(** The embedded path keeps the address it obtained itself. *)
Lemma miniapp_state_address env signature data :
  truthy_str (walletAddress_of env) = true ->
  prop (userData (miniapp_state env signature data)) "address" =
  of_nullable (walletAddress_of env).
Proof.
  intros H. unfold miniapp_state. simpl. rewrite H.
  unfold prop, get, obj. simpl.
  rewrite lookup_insert_eq. reflexivity.
Qed.

(** C9.  The wallet-connector flow at a backend answer that carries an
    [address] of its own: the wallet is connected as ["0xBBB"], the
    backend answers 2xx with [{address: "0xCCC"}], and the stored
    [userData.address] is the backend's ["0xCCC"], not the connected
    wallet's.  The spread of line 176 comes after the [address] key. *)
Theorem signIn_browser_address_overridden :
  let env := sample_env false true false (fun _ => Some "0xBBB"%string) (inr None)
               (inl (Error "unused"))
               (ok_with (VObj (obj [("address"%string, VStr "0xCCC")]))) in
  snd (signIn env fresh) = inr tt /\
  fst (connectWallet env (loading fresh)) =
    {| auth := with_isLoading true initialAuthState; reads := 1;
       trace := [SetAuthState (with_isLoading true initialAuthState);
                 ReadAddressRef (Some "0xBBB"%string)] |} /\
  prop (userData (auth (fst (signIn env fresh)))) "address" = VStr "0xCCC" /\
  prop (userData (auth (fst (signIn env fresh)))) "address" <> VStr "0xBBB".
Proof.
  intros env. vm_compute. repeat split; try reflexivity. discriminate.
Qed.

(** C10.  When [signIn] throws, [token] and [userData] are what they were
    before the call and [isLoading] is false. *)
Theorem signIn_throw_frame env w error :
  snd (signIn env w) = inl error ->
  token (auth (fst (signIn env w))) = token (auth w) /\
  userData (auth (fst (signIn env w))) = userData (auth w) /\
  isLoading (auth (fst (signIn env w))) = false.
Proof.
  intros Hthrow. destruct (signIn_auth env w) as [_ H].
  rewrite Hthrow in H. destruct H as [-> _]. repeat split.
Qed.

(** A failed re-authentication (the backend answers 401) keeps the token
    held before. *)
Lemma signIn_throw_frame_witness :
  let env := sample_env false true false (fun _ => Some "0xBBB"%string) (inr None)
               (inl (Error "unused")) status_401 in
  snd (signIn env signed_in) = inl (Error msg_auth_failed) /\
  token (auth (fst (signIn env signed_in))) = VStr "old" /\
  userData (auth (fst (signIn env signed_in))) = userData (auth signed_in) /\
  isLoading (auth (fst (signIn env signed_in))) = false.
Proof.
  intros env. split; [reflexivity|].
  apply (signIn_throw_frame env signed_in (Error msg_auth_failed)). reflexivity.
Defined.

(** C4.  Every invocation of [signIn] first writes [isLoading = true]
    (the first effect of the call, leaving [token] and [userData] alone),
    and ends, whatever its outcome, right after a state write under which
    [isLoading] is false; when it throws, that last write is the reset of
    line 181, performed after the error was logged and before it is
    raised again. *)
Theorem signIn_isLoading env w :
  (exists rest,
     trace (fst (signIn env w)) =
     trace w ++ SetAuthState (with_isLoading true (auth w)) :: rest) /\
  isLoading (with_isLoading true (auth w)) = true /\
  isLoading (auth (fst (signIn env w))) = false /\
  (exists before,
     trace (fst (signIn env w)) = before ++ [SetAuthState (auth (fst (signIn env w)))]) /\
  match snd (signIn env w) with
  | inl error =>
      exists before,
        trace (fst (signIn env w)) =
        before ++ [ConsoleError "Authentication failed:" error;
                   SetAuthState (with_isLoading false (auth w))]
  | inr _ => True
  end.
Proof.
  destruct (signIn_auth env w) as [[Hl Hlast] Hthrow]. repeat split; try assumption.
  - destruct (signIn_extends_enter env w) as [r1 H1].
    destruct (monotone_tryMiniapp env (loading w)) as [r2 H2].
    rewrite enter_run in H1. exists (r2 ++ r1). rewrite H1, H2.
    unfold loading. simpl. now rewrite <- !app_assoc.
  - destruct (snd (signIn env w)); [|exact I]. tauto.
Qed.

(** C5.  [signOut] always leaves the initial state, and asks the wallet
    connector to disconnect exactly when the environment is not embedded
    and a connection is active. *)
Theorem signOut_resets env w :
  snd (signOut env w) = inr tt /\
  auth (fst (signOut env w)) = initialAuthState /\
  exists tr,
    trace (fst (signOut env w)) = trace w ++ tr /\
    (In Disconnect tr <-> isMiniapp env = false /\ isConnected env = true).
Proof.
  unfold signOut. run.
  destruct (isMiniapp env), (isConnected env); simpl;
    (split; [reflexivity|]); (split; [reflexivity|]);
    rewrite <- ?app_assoc; eexists; (split; [reflexivity|]); simpl;
    intuition congruence.
Qed.

Lemma signOut_resets_witness :
  let env := sample_env false true false (fun _ => Some "0xBBB"%string) (inr None)
               (inl (Error "unused")) status_401 in
  auth (fst (signOut env signed_in)) = initialAuthState /\
  In Disconnect (trace (fst (signOut env signed_in))).
Proof.
  intros env. destruct (signOut_resets env signed_in) as (_ & Hauth & tr & Htr & Hdis).
  split; [exact Hauth|]. rewrite Htr. apply in_or_app. right.
  apply Hdis. split; reflexivity.
Defined.

(** C6.  [isAuthenticated] is "the token is truthy" when embedded and
    "connected and the token is truthy" otherwise; for the declared type
    of [token], a truthy token is a string other than the empty one. *)
Theorem isAuthenticated_rule env authState :
  isAuthenticated env authState =
    (if isMiniapp env then truthy (token authState)
     else isConnected env && truthy (token authState)) /\
  (isAuthenticated env authState = true <->
   (isMiniapp env = true \/ isConnected env = true) /\
   truthy (token authState) = true) /\
  (token authState = VNull -> isAuthenticated env authState = false) /\
  (forall t, token authState = VStr t -> t <> ""%string ->
     isAuthenticated env authState = (isMiniapp env || isConnected env)).
Proof.
  unfold isAuthenticated. split; [reflexivity|]. split; [|split].
  - destruct (isMiniapp env), (isConnected env); simpl; intuition discriminate.
  - intros ->. simpl. destruct (isMiniapp env), (isConnected env); reflexivity.
  - intros t -> Ht. simpl.
    destruct (String.eqb_spec t ""); [contradiction|].
    destruct (isMiniapp env), (isConnected env); reflexivity.
Qed.

Lemma isAuthenticated_rule_witness :
  let env := sample_env false true false (fun _ => Some "0xBBB"%string) (inr None)
               (inl (Error "unused")) status_401 in
  isAuthenticated env (auth signed_in) = true /\
  isAuthenticated env initialAuthState = false.
Proof.
  intros env.
  destruct (isAuthenticated_rule env (auth signed_in)) as (_ & _ & _ & Hstr).
  destruct (isAuthenticated_rule env initialAuthState) as (_ & _ & Hnull & _).
  split; [apply (Hstr "old"%string); [reflexivity|discriminate] | apply Hnull; reflexivity].
Defined.

(** * Further properties of the hook *)

(** ** The nonce *)

Lemma length_substring n : forall m s,
  String.length (String.substring n m s) = Nat.min m (String.length s - n).
Proof.
  induction n as [|n IHn]; intros m s.
  - revert s. induction m as [|m IHm]; intros s; destruct s as [|c s]; simpl;
      try reflexivity.
    rewrite IHm. now rewrite Nat.sub_0_r.
  - destruct s as [|c s]; simpl.
    + now destruct m.
    + apply IHn.
Qed.

Lemma length_append (s1 s2 : string) :
  String.length (s1 ++ s2)%string = String.length s1 + String.length s2.
Proof. induction s1 as [|c s1 IH]; simpl; [reflexivity|]. now rewrite IH. Qed.

Lemma length_zero_empty (s : string) : String.length s = 0 <-> s = ""%string.
Proof. destruct s; simpl; split; intros H; try reflexivity; discriminate. Qed.

(** X1.  The nonce has [min 13 (|r1| - 2) + min 13 (|r2| - 2)]
    characters, where [r1] and [r2] are the two base-36 renderings it is
    cut from: never more than 26, and none at all exactly when neither
    rendering goes beyond its first two characters (as for
    [Math.random() = 0], rendered ["0"]). *)
Theorem generateNonce_length env :
  String.length (generateNonce env) =
    Nat.min 13 (String.length (fst (random36 env)) - 2) +
    Nat.min 13 (String.length (snd (random36 env)) - 2) /\
  String.length (generateNonce env) <= 26 /\
  (generateNonce env = ""%string <->
   String.length (fst (random36 env)) <= 2 /\ String.length (snd (random36 env)) <= 2).
Proof.
  assert (Hlen : String.length (generateNonce env) =
                 Nat.min 13 (String.length (fst (random36 env)) - 2) +
                 Nat.min 13 (String.length (snd (random36 env)) - 2)).
  { unfold generateNonce. now rewrite length_append, !length_substring. }
  split; [exact Hlen|]. split; [lia|].
  rewrite <- length_zero_empty, Hlen. lia.
Qed.

Lemma generateNonce_length_witness :
  let zero := sample_env true false false (fun _ => None) (inr None)
                (inl (Error "unused")) status_401 in
  String.length (generateNonce zero) = 21 /\
  generateNonce
    {| isMiniapp := true; isConnected := false; appKit_open := false;
       addressRef := fun _ => None; eth_requestAccounts := inr None;
       random36 := ("0", "0")%string; sdk_signIn := fun _ => inl (Error "unused");
       NEXT_PUBLIC_BACKEND_ORIGIN := None; location_origin := ""%string;
       fetch := fun _ _ => status_401; now_iso := ""%string;
       signMessageAsync := fun _ => inl (Error "unused") |} = ""%string.
Proof.
  intros zero. split.
  - rewrite (proj1 (generateNonce_length zero)). reflexivity.
  - apply (proj2 (proj2 (generateNonce_length _))). simpl. lia.
Defined.

(** ** Environment detection *)

(** X2.  [isFarcasterMiniapp()] is truthy exactly when there is a window
    and [sdk] is an object whose [actions] is an object with a [signIn]
    of type ["function"]; a truthy answer is the boolean [true]; without a
    window, or when the probing throws, the answer is the boolean
    [false]. *)
Theorem isFarcasterMiniapp_truthy ambient :
  (truthy (isFarcasterMiniapp ambient) = true <->
   has_window ambient = true /\
   sdk ambient = SdkObject (inr (ActionsObject (inr "function"%string)))) /\
  (truthy (isFarcasterMiniapp ambient) = true ->
   isFarcasterMiniapp ambient = VBool true) /\
  (has_window ambient = false -> isFarcasterMiniapp ambient = VBool false) /\
  (forall e, probe_sdk (sdk ambient) = inl e ->
             isFarcasterMiniapp ambient = VBool false).
Proof.
  unfold isFarcasterMiniapp.
  destruct ambient as [[|] [| |[e|[v|[e|name]]]]]; simpl;
    try destruct (truthy v) eqn:Hv; simpl; rewrite ?Hv;
    try destruct (String.eqb_spec name "function"); subst; simpl;
    repeat split; intros; try discriminate; try reflexivity; try tauto;
    try (destruct_and?; congruence).
Qed.

Lemma isFarcasterMiniapp_truthy_witness :
  isFarcasterMiniapp
    {| has_window := true;
       sdk := SdkObject (inr (ActionsObject (inr "function"%string))) |} = VBool true /\
  isFarcasterMiniapp
    {| has_window := true; sdk := SdkObject (inr (ActionsPlain VUndefined)) |}
    = VUndefined.
Proof.
  split; [|reflexivity].
  apply (proj1 (proj2 (isFarcasterMiniapp_truthy _))).
  apply (proj2 (proj1 (isFarcasterMiniapp_truthy _))). split; reflexivity.
Defined.

(** ** The polling loop, once more *)

Lemma poll_S env remaining attempts currentAddress :
  poll env (S remaining) attempts currentAddress =
  (if negb (truthy_str currentAddress) then
     emit (SetTimeout 100);;
     current ← readAddressRef env;
     poll env remaining (S attempts) current
   else mret (currentAddress, attempts)).
Proof. reflexivity. Qed.

Lemma poll_post env remaining : forall attempts current w,
  exists w' last rounds,
    poll env remaining attempts current w = (w', inr (last, attempts + rounds)) /\
    rounds <= remaining /\
    (truthy_str last = true \/ rounds = remaining) /\
    (rounds = 0 -> last = current) /\
    (0 < rounds ->
     truthy_str current = false /\
     last = addressRef env (reads w + rounds - 1) /\
     forall i, i + 1 < rounds -> truthy_str (addressRef env (reads w + i)) = false) /\
    auth w' = auth w /\
    reads w' = reads w + rounds /\
    trace w' = trace w ++ polls env (reads w) rounds.
Proof.
  induction remaining as [|r IH]; intros attempts current w.
  - exists w, current, 0. change (poll env 0 attempts current w)
      with (w, @inr exn _ (current, attempts)).
    rewrite !Nat.add_0_r. cbn [polls seq flat_map]. rewrite app_nil_r.
    split; [reflexivity|]. split; [lia|]. split; [now right|].
    repeat split; intros; auto; lia.
  - rewrite poll_S. destruct (truthy_str current) eqn:Hc; cbn [negb].
    + exists w, current, 0. unfold mret, M_ret. rewrite !Nat.add_0_r.
      cbn [polls seq flat_map]. rewrite app_nil_r.
      split; [reflexivity|]. split; [lia|]. split; [now left|].
      repeat split; intros; auto; lia.
    + run.
      set (w1 := {| auth := auth w; reads := S (reads w);
                    trace := (trace w ++ [SetTimeout 100]) ++
                             [ReadAddressRef (addressRef env (reads w))] |}).
      destruct (IH (S attempts) (addressRef env (reads w)) w1)
        as (w' & last & rounds & Hrun & Hle & Hexit & Hzero & Hpos & Hauth & Hreads & Htr).
      exists w', last, (S rounds). rewrite Hrun. subst w1. simpl in *.
      split; [repeat f_equal; lia|]. split; [lia|].
      split; [destruct Hexit; [auto|right; lia]|].
      split; [lia|]. split; [|split; [assumption|split; [lia|]]].
      * intros _. split; [reflexivity|]. destruct rounds as [|rounds].
        -- split; [rewrite Hzero by reflexivity; f_equal; lia|]. intros i Hi. lia.
        -- destruct Hpos as (Hcur & Hlast & Habs); [lia|]. split.
           ++ rewrite Hlast. f_equal. lia.
           ++ intros [|i] Hi.
              ** now rewrite Nat.add_0_r.
              ** replace (reads w + S i) with (S (reads w + i)) by lia.
                 apply Habs. lia.
      * rewrite Htr, polls_S, <- !app_assoc. reflexivity.
Qed.

(** X3.  The polling loop of lines 132-137 always returns, having left
    the React state alone.  It stops on the first address it sees or
    after 100 rounds, whichever comes first; [attempts] is the number of
    rounds made, each round being one 100 ms timer and one read of the
    address ref; with an address in hand at the start it makes no round
    at all. *)
Theorem poll_postcondition env current w :
  exists w' last attempts,
    poll env 100 0 current w = (w', inr (last, attempts)) /\
    attempts <= 100 /\
    (truthy_str last = true \/ attempts = 100) /\
    (truthy_str current = true -> attempts = 0 /\ last = current) /\
    (0 < attempts ->
     last = addressRef env (reads w + attempts - 1) /\
     forall i, i + 1 < attempts -> truthy_str (addressRef env (reads w + i)) = false) /\
    auth w' = auth w /\
    reads w' = reads w + attempts /\
    trace w' = trace w ++ polls env (reads w) attempts.
Proof.
  destruct (poll_post env 100 0 current w)
    as (w' & last & rounds & Hrun & Hle & Hexit & Hzero & Hpos & Hauth & Hreads & Htr).
  exists w', last, rounds. simpl in Hrun.
  split; [exact Hrun|]. split; [exact Hle|]. split; [exact Hexit|].
  split; [|split; [|auto]].
  - intros Hc. destruct rounds as [|rounds]; [auto|].
    destruct Hpos as (Hcur & _); [lia|]. congruence.
  - intros Hr. destruct (Hpos Hr) as (_ & Hlast & Habs). auto.
Qed.

(** The address turns up at the third read after the loop has started. *)
Lemma poll_postcondition_witness :
  let env := sample_env false false true
               (fun k => if Nat.ltb k 3 then None else Some "0xBBB"%string)
               (inr None) (inl (Error "unused")) status_401 in
  snd (poll env 100 0 None (loading fresh)) = inr (Some "0xBBB"%string, 4) /\
  snd (poll env 100 0 (Some "0xAAA"%string) fresh) = inr (Some "0xAAA"%string, 0).
Proof.
  intros env. split.
  - reflexivity.
  - destruct (poll_postcondition env (Some "0xAAA"%string) fresh)
      as (w' & last & attempts & Hrun & _ & _ & Hstart & _).
    rewrite Hrun. destruct (Hstart eq_refl) as [-> ->]. reflexivity.
Defined.

(** ** How many effects one invocation performs *)

Lemma tally_app k (a b : list event) : tally k (a ++ b) = tally k a + tally k b.
Proof. induction a as [|e a IH]; simpl; [reflexivity|]. rewrite IH. lia. Qed.

Lemma tally_polls env k start n :
  tally k (polls env start n) =
  n * ((if kind_eqb KSetTimeout k then 1 else 0) +
       (if kind_eqb KReadAddressRef k then 1 else 0)).
Proof.
  revert start. induction n as [|n IH]; intros start; [reflexivity|].
  rewrite polls_S. cbn [tally kind_of]. rewrite IH. lia.
Qed.

Ltac tally_solve :=
  rewrite ?tally_app; cbn [tally kind_of kind_eqb]; lia.

Lemma tally_miniappPath env w k :
  tally k (trace (fst (miniappPath env w))) <=
  tally k (trace w) +
  match k with
  | KEthRequestAccounts | KConsoleWarn | KHostSignIn | KFetch | KSetAuthState => 1
  | _ => 0
  end.
Proof.
  unfold miniappPath, requestWallet, signInWithFarcaster.
  destruct k; cases; tally_solve.
Qed.

Lemma tally_tryMiniapp env w k :
  tally k (trace (fst (tryMiniapp env w))) <=
  tally k (trace w) +
  (if isMiniapp env then
     match k with
     | KConsoleWarn => 2
     | KEthRequestAccounts | KHostSignIn | KFetch | KSetAuthState => 1
     | _ => 0
     end
   else 0).
Proof.
  unfold tryMiniapp. destruct (isMiniapp env); [|simpl; lia].
  pose proof (tally_miniappPath env w k) as H.
  unfold try_catch, mbind, M_bind.
  destruct (miniappPath env w) as [w1 [e|[]]]; simpl in *; run;
    destruct k; simpl in *; try tally_solve.
Qed.

Lemma tally_connectWallet env w k :
  tally k (trace (fst (connectWallet env w))) <=
  tally k (trace w) +
  match k with
  | KReadAddressRef => 101
  | KSetTimeout => 100
  | KAppKitOpen => 1
  | _ => 0
  end.
Proof.
  unfold connectWallet. run.
  destruct (negb (isConnected env) || negb (truthy_str (addressRef env (reads w))));
    simpl; [|destruct k; tally_solve].
  destruct (appKit_open env); simpl; [|destruct k; tally_solve].
  match goal with |- context [poll env 100 0 ?c ?w1] =>
    destruct (poll_post env 100 0 c w1)
      as (w' & last & rounds & Hrun & Hle & _ & _ & _ & _ & _ & Htr)
  end.
  rewrite Hrun. simpl in Htr.
  assert (Hw' : tally k (trace w') <=
                tally k (trace w) +
                match k with
                | KReadAddressRef => 101
                | KSetTimeout => 100
                | KAppKitOpen => 1
                | _ => 0
                end).
  { rewrite Htr, !tally_app, tally_polls. destruct k; cbn [tally kind_of kind_eqb]; lia. }
  destruct (truthy_str last); simpl; exact Hw'.
Qed.

Lemma tally_walletSignIn env currentAddress w k :
  tally k (trace (fst (walletSignIn env currentAddress w))) <=
  tally k (trace w) +
  match k with
  | KSignMessage | KFetch | KSetAuthState => 1
  | _ => 0
  end.
Proof. unfold walletSignIn. destruct k; cases; tally_solve. Qed.

Lemma tally_browserPath env w k :
  tally k (trace (fst (browserPath env w))) <=
  tally k (trace w) +
  match k with
  | KReadAddressRef => 101
  | KSetTimeout => 100
  | KAppKitOpen | KSignMessage | KFetch | KSetAuthState => 1
  | _ => 0
  end.
Proof.
  unfold browserPath, mbind, M_bind.
  pose proof (tally_connectWallet env w k) as Hc.
  destruct (connectWallet env w) as [w1 [e|current]]; simpl in Hc.
  - simpl. destruct k; lia.
  - pose proof (tally_walletSignIn env current w1 k) as Hs.
    destruct (walletSignIn env current w1) as [w2 [e|[]]]; simpl in *;
      destruct k; lia.
Qed.

(** State writes, by outcome. *)
Lemma writes_miniappPath env w :
  tally KSetAuthState (trace (fst (miniappPath env w))) =
  tally KSetAuthState (trace w) +
  match snd (miniappPath env w) with inl _ => 0 | inr _ => 1 end.
Proof.
  unfold miniappPath, requestWallet, signInWithFarcaster. cases; tally_solve.
Qed.

Lemma writes_tryMiniapp env w :
  tally KSetAuthState (trace (fst (tryMiniapp env w))) =
  tally KSetAuthState (trace w) +
  match snd (tryMiniapp env w) with inr true => 1 | _ => 0 end.
Proof.
  unfold tryMiniapp. destruct (isMiniapp env); [|simpl; lia].
  pose proof (writes_miniappPath env w) as H.
  unfold try_catch, mbind, M_bind.
  destruct (miniappPath env w) as [w1 [e|[]]]; simpl in *; run; tally_solve.
Qed.

Lemma writes_browserPath env w :
  tally KSetAuthState (trace (fst (browserPath env w))) =
  tally KSetAuthState (trace w) +
  match snd (browserPath env w) with inl _ => 0 | inr _ => 1 end.
Proof.
  unfold browserPath, mbind, M_bind.
  pose proof (tally_connectWallet env w KSetAuthState) as Hc.
  destruct (monotone_browserPath env w) as [tr Hmono].
  unfold browserPath, mbind, M_bind in Hmono.
  destruct (connectWallet env w) as [w1 [e|current]] eqn:Hrun; simpl in *.
  - rewrite Hmono, tally_app in *. lia.
  - assert (Hw : tally KSetAuthState (trace w1) = tally KSetAuthState (trace w)).
    { destruct (monotone_bind (connectWallet env) (fun c => mret c)
                  ltac:(unfold connectWallet; mono) ltac:(mono) w) as [tr1 H1].
      unfold mbind, M_bind in H1. rewrite Hrun in H1. simpl in H1.
      rewrite H1, tally_app in *. lia. }
    rewrite <- Hw. clear.
    unfold walletSignIn. cases; tally_solve.
Qed.

Lemma writes_signIn env w :
  tally KSetAuthState (trace (fst (signIn env w))) =
  tally KSetAuthState (trace w) + 2.
Proof.
  unfold signIn. rewrite try_catch_rethrow. unfold enter. run.
  match goal with |- context [tryMiniapp env ?w1] =>
    pose proof (writes_tryMiniapp env w1) as Ht;
    pose proof (tryMiniapp_auth env w1) as Ha;
    destruct (tryMiniapp env w1) as [w2 [e|[|]]]
  end; simpl in *; [contradiction| |].
  - rewrite Ht, tally_app. simpl. lia.
  - pose proof (writes_browserPath env w2) as Hb.
    destruct (browserPath env w2) as [w3 [e|[]]]; simpl in *;
      rewrite ?tally_app, Hb, Ht, tally_app; simpl; lia.
Qed.

(** X4.  Every invocation of [signIn], whatever its outcome, writes the
    React state exactly twice: the write that raises [isLoading] and one
    closing write (the result of a successful path, or the reset of the
    outer handler). *)
Theorem signIn_two_writes env w :
  tally KSetAuthState (trace (fst (signIn env w))) =
  tally KSetAuthState (trace w) + 2.
Proof. apply writes_signIn. Qed.

(** A first bound, adding up the blocks; loose for the state writes. *)
Lemma tally_signIn env w k :
  tally k (trace (fst (signIn env w))) <=
  tally k (trace w) +
  (if isMiniapp env then
     match k with
     | KConsoleWarn => 2
     | KEthRequestAccounts | KHostSignIn | KFetch | KSetAuthState => 1
     | _ => 0
     end
   else 0) +
  match k with
  | KSetAuthState => 3
  | KReadAddressRef => 101
  | KSetTimeout => 100
  | KAppKitOpen | KSignMessage | KFetch | KConsoleError => 1
  | _ => 0
  end.
Proof.
  unfold signIn. rewrite try_catch_rethrow. unfold enter. run.
  match goal with |- context [tryMiniapp env ?w1] =>
    pose proof (tally_tryMiniapp env w1 k) as Ht;
    destruct (tryMiniapp env w1) as [w2 [e|[|]]]
  end; simpl in *; rewrite ?tally_app in *;
    try (destruct (isMiniapp env), k; simpl in *; lia).
  pose proof (tally_browserPath env w2 k) as Hb.
  destruct (browserPath env w2) as [w3 [e|[]]]; simpl in *;
    rewrite ?tally_app in *; destruct (isMiniapp env), k; simpl in *; lia.
Qed.

(** X5.  What one invocation of [signIn] costs at most: one account
    request and one host sign-in call, two requests to the backend, 101
    reads of the address ref, 100 timers, one opening of the
    wallet-connector UI, one wallet signature, two warnings and one error
    log; it never asks the wallet connector to disconnect. *)
Theorem signIn_within_budget env w k :
  tally k (trace (fst (signIn env w))) <= tally k (trace w) + signIn_budget k.
Proof.
  pose proof (tally_signIn env w k) as H.
  pose proof (writes_signIn env w) as Hw.
  destruct (isMiniapp env), k; simpl in *; lia.
Qed.

(** X6.  Outside the embedded host, [signIn] never calls the host SDK
    (no account request, no host sign-in), logs no warning and sends at
    most one request to the backend. *)
Theorem signIn_standalone_budget env w :
  isMiniapp env = false ->
  tally KEthRequestAccounts (trace (fst (signIn env w))) =
    tally KEthRequestAccounts (trace w) /\
  tally KHostSignIn (trace (fst (signIn env w))) = tally KHostSignIn (trace w) /\
  tally KConsoleWarn (trace (fst (signIn env w))) = tally KConsoleWarn (trace w) /\
  tally KFetch (trace (fst (signIn env w))) <= tally KFetch (trace w) + 1.
Proof.
  intros Hmini.
  pose proof (tally_signIn env w KEthRequestAccounts) as H1.
  pose proof (tally_signIn env w KHostSignIn) as H2.
  pose proof (tally_signIn env w KConsoleWarn) as H3.
  pose proof (tally_signIn env w KFetch) as H4.
  destruct (signIn_extends_enter env w) as [r1 Hr1].
  destruct (monotone_tryMiniapp env (loading w)) as [r2 Hr2].
  rewrite enter_run, Hr2 in Hr1. unfold loading in Hr1. simpl in Hr1.
  rewrite Hmini in *. simpl in *.
  rewrite Hr1, !tally_app in *. simpl in *. lia.
Qed.

Lemma signIn_standalone_budget_witness :
  let env := sample_env false true false (fun _ => Some "0xBBB"%string)
               (inr (Some ["0xAAA"%string])) (inr ("m", "sig1")%string)
               (ok_with (VObj ∅)) in
  tally KHostSignIn (trace (fst (signIn env fresh))) = 0 /\
  tally KFetch (trace (fst (signIn env fresh))) <= 1.
Proof.
  intros env.
  destruct (signIn_standalone_budget env fresh eq_refl) as (_ & H2 & _ & H4).
  split; [exact H2|exact H4].
Defined.

(** ** Which effects an invocation performs *)

Section Emits.
Context {A B : Type} (P : event -> Prop).

Lemma emits_ret (a : A) : emits P (mret a).
Proof. intros w. exists []. simpl. rewrite app_nil_r. auto. Qed.

Lemma emits_throw (e : exn) : emits P (@throw A e).
Proof. intros w. exists []. simpl. rewrite app_nil_r. auto. Qed.

Lemma emits_await (o : exn + A) : emits P (await o).
Proof. intros w. exists []. simpl. rewrite app_nil_r. auto. Qed.

Lemma emits_bind (m : M A) (f : A -> M B) :
  emits P m -> (forall a, emits P (f a)) -> emits P (m ≫= f).
Proof.
  intros Hm Hf w. unfold mbind, M_bind. destruct (Hm w) as (tr1 & H1 & HP1).
  destruct (m w) as [w1 [e|a]]; simpl in *; [eauto|].
  destruct (Hf a w1) as (tr2 & H2 & HP2). exists (tr1 ++ tr2).
  rewrite H2, H1, app_assoc. split; [reflexivity|]. apply Forall_app; auto.
Qed.

Lemma emits_try_catch (m : M A) (h : exn -> M A) :
  emits P m -> (forall e, emits P (h e)) -> emits P (try_catch m h).
Proof.
  intros Hm Hh w. unfold try_catch. destruct (Hm w) as (tr1 & H1 & HP1).
  destruct (m w) as [w1 [e|a]]; simpl in *; [|eauto].
  destruct (Hh e w1) as (tr2 & H2 & HP2). exists (tr1 ++ tr2).
  rewrite H2, H1, app_assoc. split; [reflexivity|]. apply Forall_app; auto.
Qed.
End Emits.

Lemma emits_emit (P : event -> Prop) e : P e -> emits P (emit e).
Proof. intros He w. exists [e]. auto. Qed.

Lemma emits_setAuthState (P : event -> Prop) f :
  (forall next, P (SetAuthState next)) -> emits P (setAuthState f).
Proof. intros H w. exists [SetAuthState (f (auth w))]. auto. Qed.

Lemma emits_readAddressRef (P : event -> Prop) env :
  (forall current, P (ReadAddressRef current)) -> emits P (readAddressRef env).
Proof. intros H w. exists [ReadAddressRef (addressRef env (reads w))]. auto. Qed.

Lemma emits_poll (P : event -> Prop) env remaining attempts current :
  P (SetTimeout 100) -> (forall c, P (ReadAddressRef c)) ->
  emits P (poll env remaining attempts current).
Proof.
  intros Ht Hr w.
  destruct (poll_post env remaining attempts current w)
    as (w' & last & rounds & Hrun & _ & _ & _ & _ & _ & _ & Htr).
  rewrite Hrun. exists (polls env (reads w) rounds). split; [exact Htr|].
  unfold polls. generalize (seq (reads w) rounds) as l.
  induction l as [|i l IH]; simpl; auto.
Qed.

Ltac emits_all :=
  repeat match goal with
  | |- forall _, _ => intro
  | |- emits _ (_ ≫= _) => apply emits_bind
  | |- emits _ (try_catch _ _) => apply emits_try_catch
  | |- emits _ (mret _) => apply emits_ret
  | |- emits _ (throw _) => apply emits_throw
  | |- emits _ (await _) => apply emits_await
  | |- emits _ (emit _) => apply emits_emit; simpl; auto
  | |- emits _ (setAuthState _) => apply emits_setAuthState; simpl; auto
  | |- emits _ (readAddressRef _) => apply emits_readAddressRef; simpl; auto
  | |- emits _ (poll _ _ _ _) => apply emits_poll; simpl; auto
  | |- emits _ _ => case_match
  end.

Lemma literal_empty_override env :
  NEXT_PUBLIC_BACKEND_ORIGIN env = None \/
  NEXT_PUBLIC_BACKEND_ORIGIN env = Some ""%string ->
  backendOrigin env = location_origin env.
Proof. unfold backendOrigin. intros [-> | ->]; reflexivity. Qed.

(** X7.  Every request [signIn] sends goes to [/api/auth] under one and
    the same origin, the configured override when it is a non-empty
    string and the page's own origin otherwise (an empty override
    included); every timer it sets is a 100 ms one; and it never asks the
    wallet connector to disconnect. *)
Theorem signIn_requests env :
  emits (signIn_event env) (signIn env) /\
  (forall origin, NEXT_PUBLIC_BACKEND_ORIGIN env = Some origin -> origin <> ""%string ->
     auth_url env = (origin ++ "/api/auth")%string) /\
  (NEXT_PUBLIC_BACKEND_ORIGIN env = None \/
   NEXT_PUBLIC_BACKEND_ORIGIN env = Some ""%string ->
   auth_url env = (location_origin env ++ "/api/auth")%string).
Proof.
  split; [|split].
  - unfold signIn, enter, tryMiniapp, miniappPath, requestWallet, signInWithFarcaster,
      browserPath, connectWallet, walletSignIn, rethrow.
    emits_all.
  - intros origin Ho Hne. unfold auth_url, backendOrigin. rewrite Ho. simpl.
    destruct (String.eqb_spec origin ""); [contradiction|reflexivity].
  - intros H. unfold auth_url. now rewrite literal_empty_override.
Qed.

Lemma signIn_requests_witness :
  let env := sample_env true true false (fun _ => Some "0xBBB"%string) (inr None)
               (inr ("m", "sig1")%string) status_401 in
  auth_url env = "https://app.example/api/auth"%string /\
  exists tr, trace (fst (signIn env fresh)) = tr /\
             Forall (signIn_event env) tr /\ tally KFetch tr = 2.
Proof.
  intros env. destruct (signIn_requests env) as (Hemits & _ & Hpage).
  split; [apply Hpage; left; reflexivity|].
  destruct (Hemits fresh) as (tr & Htr & HP). exists tr.
  split; [exact Htr|]. split; [exact HP|].
  simpl in Htr. rewrite <- Htr. reflexivity.
Defined.

(** ** The fallback is the wallet-connector flow *)

Section Blind.
Context {A B : Type}.

Lemma blind_ret (a : A) : blind (mret a).
Proof. intros w w' Ha Hr. auto. Qed.

Lemma blind_throw (e : exn) : blind (@throw A e).
Proof. intros w w' Ha Hr. auto. Qed.

Lemma blind_await (o : exn + A) : blind (await o).
Proof. intros w w' Ha Hr. auto. Qed.

Lemma blind_bind (m : M A) (f : A -> M B) :
  blind m -> (forall a, blind (f a)) -> blind (m ≫= f).
Proof.
  intros Hm Hf w w' Ha Hr. unfold mbind, M_bind.
  destruct (Hm w w' Ha Hr) as (Hs & Ha1 & Hr1).
  destruct (m w) as [w1 [e|a]], (m w') as [w1' [e'|a']]; simpl in *;
    try discriminate Hs.
  - injection Hs as <-. auto.
  - injection Hs as <-. now apply Hf.
Qed.

Lemma blind_try_catch (m : M A) (h : exn -> M A) :
  blind m -> (forall e, blind (h e)) -> blind (try_catch m h).
Proof.
  intros Hm Hh w w' Ha Hr. unfold try_catch.
  destruct (Hm w w' Ha Hr) as (Hs & Ha1 & Hr1).
  destruct (m w) as [w1 [e|a]], (m w') as [w1' [e'|a']]; simpl in *;
    try discriminate Hs.
  - injection Hs as <-. now apply Hh.
  - auto.
Qed.
End Blind.

Lemma blind_emit e : blind (emit e).
Proof. intros w w' Ha Hr. simpl. auto. Qed.

Lemma blind_setAuthState f : blind (setAuthState f).
Proof. intros w w' Ha Hr. simpl. rewrite Ha. auto. Qed.

Lemma blind_readAddressRef env : blind (readAddressRef env).
Proof. intros w w' Ha Hr. simpl. rewrite Hr. auto. Qed.

Ltac blind_all :=
  repeat match goal with
  | |- forall _, _ => intro
  | |- blind (_ ≫= _) => apply blind_bind
  | |- blind (try_catch _ _) => apply blind_try_catch
  | |- blind (mret _) => apply blind_ret
  | |- blind (throw _) => apply blind_throw
  | |- blind (await _) => apply blind_await
  | |- blind (emit _) => apply blind_emit
  | |- blind (setAuthState _) => apply blind_setAuthState
  | |- blind (readAddressRef _) => apply blind_readAddressRef
  | H : _ |- blind (poll _ _ _ _) => apply H
  | |- blind _ => case_match
  end.

Lemma blind_poll env remaining : forall attempts current,
  blind (poll env remaining attempts current).
Proof.
  induction remaining as [|r IH]; intros attempts current.
  - apply (blind_ret (current, attempts)).
  - rewrite poll_S. blind_all.
Qed.

Lemma blind_browserPath env : blind (try_catch (browserPath env) rethrow).
Proof.
  pose proof (blind_poll env 100) as Hpoll.
  unfold browserPath, connectWallet, walletSignIn, rethrow. blind_all.
Qed.

Lemma poll_standalone env remaining : forall attempts current w,
  poll (standalone env) remaining attempts current w =
  poll env remaining attempts current w.
Proof.
  induction remaining as [|r IH]; intros attempts current w; [reflexivity|].
  rewrite !poll_S. destruct (truthy_str current); [reflexivity|]. simpl.
  unfold mbind, M_bind. simpl. now rewrite IH.
Qed.

Lemma connectWallet_standalone env w :
  connectWallet (standalone env) w = connectWallet env w.
Proof.
  unfold connectWallet, mbind, M_bind. cbn [readAddressRef standalone addressRef
    isConnected appKit_open].
  destruct (negb (isConnected env) || negb (truthy_str (addressRef env (reads w))));
    [|reflexivity].
  destruct (appKit_open env); [|reflexivity]. cbn [emit throw].
  now rewrite poll_standalone.
Qed.

Lemma browserPath_standalone env w :
  browserPath (standalone env) w = browserPath env w.
Proof.
  unfold browserPath, mbind, M_bind. rewrite connectWallet_standalone.
  reflexivity.
Qed.

(** X8.  When the embedded sign-in fails (the host call rejects or the
    backend verification fails), the invocation ends exactly as the same
    invocation would outside the embedded host: same outcome, same final
    React state, same number of reads of the address ref. *)
Theorem fallback_as_standalone env w :
  isMiniapp env = true ->
  host_signIn_fails env \/ verification_fails env ->
  snd (signIn env w) = snd (signIn (standalone env) w) /\
  auth (fst (signIn env w)) = auth (fst (signIn (standalone env) w)) /\
  reads (fst (signIn env w)) = reads (fst (signIn (standalone env) w)).
Proof.
  intros Hmini Hfail.
  destruct (enter_fallback env w Hmini Hfail) as (e & tr & Henter).
  rewrite (signIn_fallthrough _ _ _ Henter).
  rewrite (signIn_fallthrough _ _ _ (enter_browser (standalone env) w eq_refl)).
  unfold try_catch at 2. rewrite browserPath_standalone.
  apply (blind_browserPath env); reflexivity.
Qed.

(** The fallback scenario of the specification: the host sign-in throws,
    the wallet is connected as ["0xBBB"], the backend answers [{}]. *)
Lemma fallback_as_standalone_witness :
  let env := sample_env true true false (fun _ => Some "0xBBB"%string)
               (inr (Some ["0xAAA"%string])) (inl (Error "rejected"))
               (ok_with (VObj ∅)) in
  snd (signIn env fresh) = inr tt /\
  auth (fst (signIn env fresh)) =
    {| token := VStr "sig2";
       userData := VObj (obj [("address"%string, VStr "0xBBB")]);
       isLoading := false |}.
Proof.
  intros env.
  destruct (fallback_as_standalone env fresh eq_refl) as (Hs & Ha & _).
  - left. exists (Error "rejected"). reflexivity.
  - rewrite Hs, Ha. split; reflexivity.
Defined.

(** ** With an address already known *)

(** X9.  The wallet-connector flow is reached and the address ref already
    holds an address: [signIn] sets no timer and goes straight to the
    wallet signature with that address.  It opens the wallet-connector UI
    on the way exactly when the wallet is not reported as connected; when
    it is, a missing open-UI action is no error. *)
Theorem signIn_address_known env w w1 address :
  enter env w = (w1, inr false) ->
  addressRef env (reads w1) = Some address ->
  address <> ""%string ->
  isConnected env = true \/ appKit_open env = true ->
  signIn env w =
    try_catch (walletSignIn env (Some address)) rethrow
      {| auth := auth w1; reads := S (reads w1);
         trace := trace w1 ++
                  ReadAddressRef (Some address) ::
                  (if isConnected env then [] else [AppKitOpen]) |}.
Proof.
  intros Henter Href Hne Hway.
  assert (Hb : String.eqb address "" = false)
    by now destruct (String.eqb_spec address "").
  assert (Ht : truthy_str (Some address) = true) by (simpl; now rewrite Hb).
  rewrite (signIn_fallthrough _ _ _ Henter). unfold try_catch, browserPath.
  unfold mbind at 1, M_bind at 1. unfold connectWallet. run. rewrite Href.
  destruct (isConnected env); simpl; rewrite ?Hb; simpl.
  - reflexivity.
  - destruct Hway as [Hc|Ho]; [discriminate|]. rewrite Ho. simpl.
    rewrite poll_present by exact Ht. simpl. rewrite Hb. simpl.
    now rewrite <- app_assoc.
Qed.

(** Not reported as connected, yet the ref holds a (stale) address. *)
Lemma signIn_address_known_witness :
  let env := sample_env false false true (fun _ => Some "0xBBB"%string) (inr None)
               (inl (Error "unused")) (ok_with (VObj ∅)) in
  trace (fst (signIn env fresh)) =
    [SetAuthState (with_isLoading true initialAuthState);
     ReadAddressRef (Some "0xBBB"%string); AppKitOpen;
     SignMessage (signInMessage env);
     Fetch (auth_url env) (browser_body (Some "0xBBB"%string) (signInMessage env) "sig2");
     SetAuthState (auth (fst (signIn env fresh)))].
Proof.
  intros env.
  rewrite (signIn_address_known env fresh (loading fresh) "0xBBB" eq_refl eq_refl)
    at 1; [reflexivity|discriminate|right; reflexivity].
Defined.

(** X10.  Whatever [connectWallet] hands on is a non-empty address, and
    the next thing the flow does is ask the wallet to sign: the guard of
    line 145 never fires. *)
Theorem browserPath_address_guard env w w1 currentAddress :
  connectWallet env w = (w1, inr currentAddress) ->
  truthy_str currentAddress = true /\
  exists rest,
    trace (fst (browserPath env w)) =
    trace w1 ++ SignMessage (signInMessage env) :: rest.
Proof.
  intros Hconn. pose proof (connectWallet_truthy _ _ _ _ Hconn) as Ht.
  split; [exact Ht|]. unfold browserPath. erewrite bind_inr by exact Hconn.
  destruct (walletSignIn_trace env w1 currentAddress Ht) as (rest & Htr & _).
  eauto.
Qed.

Lemma browserPath_address_guard_witness :
  let env := sample_env false false true
               (fun k => if Nat.ltb k 3 then None else Some "0xBBB"%string)
               (inr None) (inl (Error "unused")) status_401 in
  truthy_str (Some "0xBBB"%string) = true /\
  exists rest,
    trace (fst (browserPath env fresh)) =
    trace (fst (connectWallet env fresh)) ++ SignMessage (signInMessage env) :: rest.
Proof.
  intros env.
  exact (browserPath_address_guard env fresh (fst (connectWallet env fresh))
           (Some "0xBBB"%string) eq_refl).
Defined.

(** ** After a successful sign-in *)

Lemma obj_address fid address :
  obj [("fid"%string, fid); ("address"%string, address)] !! "address"%string
  = Some address.
Proof. unfold obj. simpl. apply lookup_insert_eq. Qed.

Lemma literal_then_spread_has k v data :
  is_Some (literal_then_spread k v data !! k).
Proof.
  destruct (own_props data !! k) as [x|] eqn:H.
  - rewrite (literal_then_spread_own _ _ _ _ H). eauto.
  - rewrite (literal_then_spread_default _ _ _ H). eauto.
Qed.

Lemma miniappPath_inr env w w' :
  miniappPath env w = (w', inr tt) ->
  exists message signature o,
    sdk_signIn env (generateNonce env) = inr (message, signature) /\
    auth w' = {| token := VStr signature; userData := VObj o; isLoading := false |} /\
    is_Some (o !! "address"%string).
Proof.
  unfold miniappPath, requestWallet, signInWithFarcaster.
  pose proof obj_address as Hobj.
  cases; intros; simplify_eq; eexists _, _, _; (split; [reflexivity|]);
    (split; [reflexivity|]); rewrite Hobj; eauto.
Qed.

Lemma walletSignIn_inr env currentAddress w w' :
  walletSignIn env currentAddress w = (w', inr tt) ->
  exists signature token o,
    signMessageAsync env (signInMessage env) = inr signature /\
    auth w' = {| token := token; userData := VObj o; isLoading := false |} /\
    (token = VStr signature \/ truthy token = true) /\
    is_Some (o !! "address"%string).
Proof.
  unfold walletSignIn. pose proof literal_then_spread_has as Hhas.
  cases; intros; simplify_eq; eexists _, _, _; (split; [reflexivity|]);
    (split; [reflexivity|]); (split; [|apply Hhas]); auto.
Qed.

(** Where the token of a successful sign-in comes from. *)
Lemma signIn_inr env w :
  snd (signIn env w) = inr tt ->
  exists token o,
    auth (fst (signIn env w)) =
      {| token := token; userData := VObj o; isLoading := false |} /\
    is_Some (o !! "address"%string) /\
    ((exists message signature,
        sdk_signIn env (generateNonce env) = inr (message, signature) /\
        token = VStr signature) \/
     (exists signature,
        signMessageAsync env (signInMessage env) = inr signature /\
        (token = VStr signature \/ truthy token = true))).
Proof.
  unfold signIn. rewrite try_catch_rethrow. unfold enter, tryMiniapp. run.
  destruct (isMiniapp env).
  - unfold try_catch, mbind, M_bind.
    match goal with |- context [miniappPath env ?w1] =>
      pose proof (miniappPath_inr env w1) as Hm;
      destruct (miniappPath env w1) as [w2 [e|[]]]
    end; simpl.
    + unfold browserPath, mbind, M_bind.
      match goal with |- context [connectWallet env ?w3] =>
        destruct (connectWallet env w3) as [w4 [e'|current]]
      end; simpl; [discriminate|].
      pose proof (walletSignIn_inr env current w4) as Hs.
      destruct (walletSignIn env current w4) as [w5 [e'|[]]]; simpl; [discriminate|].
      intros _. destruct (Hs w5 eq_refl) as (sig & tok & o & H1 & H2 & H3 & H4).
      exists tok, o. eauto 10.
    + intros _.
      destruct (Hm w2 eq_refl) as (msg & sig & o & H1 & H2 & H3).
      exists (VStr sig), o. eauto 10.
  - simpl. unfold browserPath, mbind, M_bind.
    match goal with |- context [connectWallet env ?w3] =>
      destruct (connectWallet env w3) as [w4 [e'|current]]
    end; simpl; [discriminate|].
    pose proof (walletSignIn_inr env current w4) as Hs.
    destruct (walletSignIn env current w4) as [w5 [e'|[]]]; simpl; [discriminate|].
    intros _. destruct (Hs w5 eq_refl) as (sig & tok & o & H1 & H2 & H3 & H4).
    exists tok, o. eauto 10.
Qed.

(** X11.  A successful [signIn] sets [token] and [userData] together:
    afterwards the token is neither [null] nor [undefined] (it is a
    signature, or a truthy token of the backend), [userData] is an
    object that has an [address] key, and [isLoading] is false. *)
Theorem signIn_success_state env w :
  snd (signIn env w) = inr tt ->
  nullish (token (auth (fst (signIn env w)))) = false /\
  (exists o, userData (auth (fst (signIn env w))) = VObj o /\
             is_Some (o !! "address"%string)) /\
  isLoading (auth (fst (signIn env w))) = false.
Proof.
  intros Hok. destruct (signIn_inr env w Hok) as (tok & o & Ha & Ho & Htok).
  rewrite Ha. simpl. split; [|eauto].
  destruct Htok as [(m & s & _ & ->)|(s & _ & [->|Ht])]; try reflexivity.
  destruct tok; simpl in *; congruence.
Qed.

Lemma signIn_success_state_witness :
  let env := sample_env true false false (fun _ => None) (inr None)
               (inr ("m", "sig1")%string) (ok_with (VNum 7)) in
  nullish (token (auth (fst (signIn env fresh)))) = false /\
  (exists o, userData (auth (fst (signIn env fresh))) = VObj o /\
             is_Some (o !! "address"%string)) /\
  isLoading (auth (fst (signIn env fresh))) = false.
Proof. intros env. exact (signIn_success_state env fresh eq_refl). Defined.

(** X12.  Sign-in, then sign-out.  After a successful [signIn] whose
    collaborators only ever answer with non-empty signatures, the hook
    reports [isAuthenticated] in every render that is embedded or has the
    wallet connected; after [signOut] it reports it in none. *)
Theorem signIn_signOut_isAuthenticated env w :
  snd (signIn env w) = inr tt ->
  (forall nonce message signature,
     sdk_signIn env nonce = inr (message, signature) -> signature <> ""%string) ->
  (forall message signature,
     signMessageAsync env message = inr signature -> signature <> ""%string) ->
  (forall render,
     isMiniapp render = true \/ isConnected render = true ->
     isAuthenticated render (auth (fst (signIn env w))) = true) /\
  (forall render later,
     isAuthenticated later (auth (fst (signOut render (fst (signIn env w))))) = false).
Proof.
  intros Hok Hhost Hwallet. split.
  - intros render Hrender.
    destruct (signIn_inr env w Hok) as (tok & o & Ha & _ & Htok).
    assert (Ht : truthy tok = true).
    { destruct Htok as [(m & s & Hs & ->)|(s & Hs & [->|Ht])]; [| |exact Ht];
        simpl; [apply Hhost in Hs|apply Hwallet in Hs];
        now destruct (String.eqb_spec s ""). }
    rewrite Ha. unfold isAuthenticated. simpl. rewrite Ht.
    destruct Hrender as [-> | ->]; [reflexivity|].
    now destruct (isMiniapp render).
  - intros render later. unfold signOut, isAuthenticated. run.
    destruct (negb (isMiniapp render) && isConnected render); simpl;
      destruct (isMiniapp later), (isConnected later); reflexivity.
Qed.

Lemma signIn_signOut_isAuthenticated_witness :
  let env := sample_env false true false (fun _ => Some "0xBBB"%string) (inr None)
               (inr ("m", "sig1")%string) (ok_with (VObj ∅)) in
  isAuthenticated env (auth (fst (signIn env fresh))) = true /\
  isAuthenticated env (auth (fst (signOut env (fst (signIn env fresh))))) = false.
Proof.
  intros env.
  destruct (signIn_signOut_isAuthenticated env fresh eq_refl) as [Hin Hout].
  - intros nonce message signature [= _ <-]. discriminate.
  - intros message signature [= <-]. discriminate.
  - split; [apply Hin; right; reflexivity|apply Hout].
Defined.

(** ** The auto sign-in effect *)

Lemma signIn_starts env w :
  exists rest,
    trace (fst (signIn env w)) =
    trace w ++ SetAuthState (with_isLoading true (auth w)) :: rest.
Proof.
  destruct (signIn_extends_enter env w) as [r1 H1].
  destruct (monotone_tryMiniapp env (loading w)) as [r2 H2].
  rewrite enter_run in H1. exists (r2 ++ r1). rewrite H1, H2.
  unfold loading. simpl. now rewrite <- !app_assoc.
Qed.

(** X13.  In the embedded host, with the flag down and no token held, the
    effect runs [signIn]; when that succeeds, the flag stays up and the
    state is the one [signIn] left.  From then on the effect does nothing
    in any later render, not even after a [signOut] has cleared the
    token: signing out does not start a new automatic sign-in. *)
Theorem autoSignIn_once env hook :
  isMiniapp env = true ->
  hasAutoSignedIn hook = false ->
  truthy (token (auth (world hook))) = false ->
  snd (signIn env (world hook)) = inr tt ->
  autoSignIn env hook =
    {| hasAutoSignedIn := true; world := fst (signIn env (world hook)) |} /\
  (forall render, autoSignIn render (autoSignIn env hook) = autoSignIn env hook) /\
  (forall render later,
     let signed_out :=
       {| hasAutoSignedIn := hasAutoSignedIn (autoSignIn env hook);
          world := fst (signOut render (world (autoSignIn env hook))) |} in
     token (auth (world signed_out)) = VNull /\
     autoSignIn later signed_out = signed_out).
Proof.
  intros Hmini Hflag Htok Hok.
  assert (Hrun : autoSignIn env hook =
                 {| hasAutoSignedIn := true; world := fst (signIn env (world hook)) |}).
  { unfold autoSignIn. rewrite Hmini, Hflag, Htok. simpl.
    destruct (signIn env (world hook)) as [w' [e|[]]]; simpl in *;
      [discriminate|reflexivity]. }
  rewrite Hrun. split; [reflexivity|]. split.
  - intros render. unfold autoSignIn. simpl. now rewrite andb_false_r.
  - intros render later. simpl. split.
    + unfold signOut. run.
      now destruct (negb (isMiniapp render) && isConnected render).
    + unfold autoSignIn. simpl. now rewrite andb_false_r.
Qed.

Lemma autoSignIn_once_witness :
  let env := sample_env true false false (fun _ => None) (inr (Some ["0xAAA"%string]))
               (inr ("m", "sig1")%string) (ok_with (VObj (obj [("fid"%string, VNum 42)]))) in
  hasAutoSignedIn (autoSignIn env (mounted fresh)) = true /\
  token (auth (world (autoSignIn env (mounted fresh)))) = VStr "sig1" /\
  autoSignIn env (autoSignIn env (mounted fresh)) = autoSignIn env (mounted fresh).
Proof.
  intros env.
  destruct (autoSignIn_once env (mounted fresh) eq_refl eq_refl eq_refl eq_refl)
    as (Hrun & Hagain & _).
  split; [now rewrite Hrun|]. split; [now rewrite Hrun|]. apply Hagain.
Defined.

(** X14.  When the automatic [signIn] throws, the effect swallows the
    error: it is logged, the flag is lowered again, and [token] and
    [userData] are what they were, with [isLoading] false.  The guard of
    the effect is therefore open again, and the next run of the effect in
    the embedded host starts a new [signIn]. *)
Theorem autoSignIn_failure env hook error :
  isMiniapp env = true ->
  hasAutoSignedIn hook = false ->
  truthy (token (auth (world hook))) = false ->
  snd (signIn env (world hook)) = inl error ->
  hasAutoSignedIn (autoSignIn env hook) = false /\
  auth (world (autoSignIn env hook)) = with_isLoading false (auth (world hook)) /\
  trace (world (autoSignIn env hook)) =
    trace (fst (signIn env (world hook))) ++
    [ConsoleError "Auto sign-in failed:" error] /\
  (forall render,
     isMiniapp render = true ->
     exists rest,
       trace (world (autoSignIn render (autoSignIn env hook))) =
       trace (world (autoSignIn env hook)) ++
       SetAuthState (with_isLoading true (auth (world (autoSignIn env hook)))) :: rest).
Proof.
  intros Hmini Hflag Htok Hthrow.
  destruct (signIn_auth env (world hook)) as [_ Hauth]. rewrite Hthrow in Hauth.
  destruct Hauth as [Hauth _].
  assert (Hrun : autoSignIn env hook =
                 {| hasAutoSignedIn := false;
                    world := fst (emit (ConsoleError "Auto sign-in failed:" error)
                                       (fst (signIn env (world hook)))) |}).
  { unfold autoSignIn. rewrite Hmini, Hflag, Htok. simpl.
    destruct (signIn env (world hook)) as [w' [e|[]]]; simpl in *;
      [now injection Hthrow as ->|discriminate]. }
  rewrite Hrun. clear Hrun Hthrow.
  set (w' := fst (signIn env (world hook))) in *. clearbody w'.
  simpl. split; [reflexivity|]. split; [exact Hauth|].
  split; [reflexivity|].
  intros render Hrender. unfold autoSignIn at 1. simpl.
  rewrite Hrender, Hauth. simpl. rewrite Htok. simpl.
  match goal with |- context [signIn render ?w1] =>
    destruct (signIn_starts render w1) as [rest Hrest];
    destruct (signIn render w1) as [w2 [e|[]]]
  end; simpl in *; rewrite Hrest; simpl; rewrite ?Hauth;
    [exists (rest ++ [ConsoleError "Auto sign-in failed:" e])|exists rest];
    rewrite <- ?app_assoc; reflexivity.
Qed.

(** The host sign-in rejects and no wallet connector is configured. *)
Lemma autoSignIn_failure_witness :
  let env := sample_env true false false (fun _ => None) (inr None)
               (inl (Error "rejected")) status_401 in
  hasAutoSignedIn (autoSignIn env (mounted fresh)) = false /\
  auth (world (autoSignIn env (mounted fresh))) = initialAuthState.
Proof.
  intros env.
  destruct (autoSignIn_failure env (mounted fresh) (Error msg_not_available)
              eq_refl eq_refl eq_refl eq_refl) as (Hflag & Hauth & _).
  split; [exact Hflag|exact Hauth].
Defined.
